(** * pose_estimator: the two batch scripts, embedded and verified

    [mediapipe_pose_estimator.py] (the Batch Image Processor) and
    [openpose_pose_estimator.py] (the Batch Invoker) are glue code around
    external collaborators.  The embedding keeps the control flow, the file
    names, the printed lines and the order of effects of the two scripts, and
    takes the collaborators (image codec, pose model, subprocesses, package
    imports) as parameters of the model.

    Platform: POSIX path flavour (the scripts hard-code [/Users/...] paths).
    Exceptions are instances of Python's [Exception]; [BaseException]s such
    as [KeyboardInterrupt] are outside the model. *)

From stdpp Require Import gmap strings list fin_maps sorting pretty.
From Stdlib Require Import ZArith Lia Ascii.

(** ** Paths and the filesystem *)

(** An absolute path, as the list of its components below the root. *)
Abbreviation path := (list string).

(** [str(Path)] for an absolute POSIX path. *)
Definition str_path (p : path) : string :=
  match p with
  | [] => "/"
  | _ => String.concat "" (map (λ c, "/" +:+ c) p)
  end.

Inductive node :=
  | Dir
  | File (data : string).

Global Instance node_eq_dec : EqDecision node.
Proof. solve_decision. Defined.

(** The filesystem: a finite map from absolute paths to nodes.  The root
    always exists. *)
Abbreviation filesystem := (gmap path node).

Definition lookup_node (fs : filesystem) (p : path) : option node :=
  match p with
  | [] => Some Dir
  | _ => fs !! p
  end.

(** [Path.exists()] and [Path.is_dir()] *)
Definition exists_ (fs : filesystem) (p : path) : bool :=
  bool_decide (is_Some (lookup_node fs p)).

Definition is_dir (fs : filesystem) (p : path) : bool :=
  bool_decide (lookup_node fs p = Some Dir).

(** ** Exceptions, events and the effect monad *)

Inductive exn :=
  | FileNotFoundError (msg : string)
  | FileExistsError (msg : string)
  | NotADirectoryError (msg : string)
  | IsADirectoryError (msg : string)
  | ImportError (msg : string)
  | CalledProcessError (msg : string) (stderr : string)
  | OtherError (msg : string).

(** [str(e)], what an f-string prints for [{e}]. *)
Definition str_exn (e : exn) : string :=
  match e with
  | FileNotFoundError m | FileExistsError m | NotADirectoryError m
  | IsADirectoryError m | ImportError m | OtherError m => m
  | CalledProcessError m _ => m
  end.

Inductive event :=
  | EPrint (line : string)          (* one [print] call *)
  | EWriteImage (p : path)          (* an image file created or overwritten *)
  | EWriteText (p : path)           (* a text file created or overwritten *)
  | ESpawn (cmd : list string)      (* a subprocess started *)
  | EImport (package : string)      (* an import attempted *)
  | EConstruct.                     (* [PoseEstimator()] constructed *)

Record world := World {
  w_fs : filesystem;
  w_trace : list event;
}.

Inductive outcome (A : Type) :=
  | Ret (a : A)
  | Raise (e : exn).
Arguments Ret {A} a.
Arguments Raise {A} e.

Definition M (A : Type) : Type := world → outcome A * world.

Global Instance M_ret : MRet M := λ A a w, (Ret a, w).
Global Instance M_bind : MBind M := λ A B f m w,
  match m w with
  | (Ret a, w') => f a w'
  | (Raise e, w') => (Raise e, w')
  end.

Definition raise {A} (e : exn) : M A := λ w, (Raise e, w).

(** [try: body  except Exception as e: handler e] *)
Definition try_except {A} (body : M A) (handler : exn → M A) : M A := λ w,
  match body w with
  | (Ret a, w') => (Ret a, w')
  | (Raise e, w') => handler e w'
  end.

Definition emit (ev : event) : M unit := λ w,
  (Ret (), World (w_fs w) (w_trace w ++ [ev])).

Definition print (line : string) : M unit := emit (EPrint line).

Definition get_fs : M filesystem := λ w, (Ret (w_fs w), w).

Definition put_fs (fs : filesystem) : M unit := λ w,
  (Ret (), World fs (w_trace w)).

(** Lift the result of an external computation into the monad. *)
Definition lift {A} (r : outcome A) : M A := λ w, (r, w).

(** The lines printed, the files written and the subprocesses started, as
    recorded in a trace. *)
Definition stdout (tr : list event) : list string :=
  omap (λ ev, match ev with EPrint s => Some s | _ => None end) tr.

Definition written_images (tr : list event) : list path :=
  omap (λ ev, match ev with EWriteImage p => Some p | _ => None end) tr.

Definition written_texts (tr : list event) : list path :=
  omap (λ ev, match ev with EWriteText p => Some p | _ => None end) tr.

Definition spawned (tr : list event) : list (list string) :=
  omap (λ ev, match ev with ESpawn c => Some c | _ => None end) tr.

(** The final world and the result of running a computation. *)
Definition after {A} (m : M A) (w : world) : world := (m w).2.
Definition result {A} (m : M A) (w : world) : outcome A := (m w).1.

(** ** Filesystem operations used by the scripts *)

(** [Path.mkdir(parents=True, exist_ok=True)]: every missing prefix of the
    path is created; an existing directory is accepted; a regular file in
    the way raises [FileExistsError] (at the path itself) or
    [NotADirectoryError] (at a proper prefix). *)
Fixpoint mkdir_from (made : path) (todo : list string) (fs : filesystem)
  : outcome filesystem :=
  match todo with
  | [] => Ret fs
  | c :: rest =>
      let p := made ++ [c] in
      match fs !! p with
      | Some Dir => mkdir_from p rest fs
      | Some (File _) =>
          match rest with
          | [] => Raise (FileExistsError (str_path p))
          | _ => Raise (NotADirectoryError (str_path p))
          end
      | None => mkdir_from p rest (<[p := Dir]> fs)
      end
  end.

Definition mkdir (p : path) : M unit :=
  fs ← get_fs;
  fs' ← lift (mkdir_from [] p fs);
  put_fs fs'.

(** The name [n] such that [p = d ++ [n]], if any. *)
Fixpoint child_name (d p : path) : option string :=
  match d, p with
  | [], [n] => Some n
  | c :: d', c' :: p' => if decide (c = c') then child_name d' p' else None
  | _, _ => None
  end.

(** The entries of directory [d] (files and sub-directories), in the
    arbitrary order of [os.scandir]; empty when [d] is not a directory. *)
Definition iterdir (fs : filesystem) (d : path) : list string :=
  if is_dir fs d then omap (child_name d) (map_to_list fs).*1 else [].

(** [fnmatch] on one path component, POSIX flavour (case-sensitive):
    [*] matches any run of characters, [?] any one character, every other
    pattern character matches itself (bracket expressions, which the
    patterns of the script do not use, are not modelled). *)
Fixpoint fnmatch (pat : string) (name : string) : bool :=
  match pat with
  | EmptyString => if name is EmptyString then true else false
  | String "*"%char pat' =>
      (fix star (name : string) : bool :=
         fnmatch pat' name ||
         match name with
         | EmptyString => false
         | String _ name' => star name'
         end) name
  | String "?"%char pat' =>
      match name with
      | EmptyString => false
      | String _ name' => fnmatch pat' name'
      end
  | String c pat' =>
      match name with
      | EmptyString => false
      | String c' name' => bool_decide (c = c') && fnmatch pat' name'
      end
  end.

(** [Path.glob(pattern)] for a single-component pattern: the names of the
    matching entries of [d]. *)
Definition glob (fs : filesystem) (d : path) (pat : string) : list string :=
  filter (λ n, fnmatch pat n = true) (iterdir fs d).

(** Python's [sorted] on paths of one directory: by name, code points
    compared as bytes of the UTF-8 encoding. *)
Definition sorted (l : list string) : list string := merge_sort String.le l.

(** [Path.stem]: the name without its last suffix; a name whose only dot
    is the first character, or that ends in a dot, has no suffix. *)
Fixpoint rfind_dot (s : string) (i : nat) (last : option nat) : option nat :=
  match s with
  | EmptyString => last
  | String c s' =>
      rfind_dot s' (S i) (if bool_decide (c = "."%char) then Some i else last)
  end.

Definition stem (name : string) : string :=
  match rfind_dot name 0 None with
  | Some i =>
      if bool_decide (0 < i < String.length name - 1)
      then String.substring 0 i name else name
  | None => name
  end.

(** ** Python number formatting *)

Definition LF : string := String "010"%char "".

(** A Python [float]: an IEEE-754 double is NaN, an infinity, or
    [(-1)^neg * m * 2^e] for integers [m] and [e] (zero has [m = 0]). *)
Inductive pyfloat :=
  | Fnan
  | Finf (neg : bool)
  | Ffinite (neg : bool) (m : N) (e : Z).

(** A decimal with four fractional digits: [(-1)^neg * units / 10^4]. *)
Record fixed4 := Fixed4 { f4_neg : bool; f4_units : N }.

Global Instance fixed4_eq_dec : EqDecision fixed4.
Proof. solve_decision. Defined.

(** [num / den] rounded to the nearest integer, ties to even. *)
Definition div_half_even (num den : N) : N :=
  let q := (num / den)%N in
  let r := (num mod den)%N in
  match (2 * r ?= den)%N with
  | Lt => q
  | Gt => (q + 1)%N
  | Eq => if N.even q then q else (q + 1)%N
  end.

(** The value of a finite float in units of [10^-4], correctly rounded
    (ties to even), as CPython's [float.__format__] does for ['.4f']. *)
Definition quantize (neg : bool) (m : N) (e : Z) : fixed4 :=
  Fixed4 neg
    (match e with
     | Zneg k => div_half_even (m * 10000) (2 ^ Npos k)
     | _ => (m * 2 ^ Z.to_N e * 10000)%N
     end).

(** The last four decimal digits of [n], zero padded. *)
Definition digits4 (n : N) : string :=
  String (pretty_N_char (n / 1000 mod 10))
    (String (pretty_N_char (n / 100 mod 10))
       (String (pretty_N_char (n / 10 mod 10))
          (String (pretty_N_char (n mod 10)) ""))).

Definition str_fixed4 (q : fixed4) : string :=
  (if f4_neg q then "-" else "") +:+ pretty (f4_units q / 10000)%N
  +:+ "." +:+ digits4 (f4_units q).

(** [f"{v:.4f}"] *)
Definition format_4f (v : pyfloat) : string :=
  match v with
  | Fnan => "nan"
  | Finf false => "inf"
  | Finf true => "-inf"
  | Ffinite neg m e => str_fixed4 (quantize neg m e)
  end.

(** 0.5 = 1 * 2^-1, 0.15625 = 5 * 2^-5, 2^-14 rounds to a tie broken to even,
    -2^-20 rounds to negative zero, 1e22 prints all its integer digits. *)
(** ** The Batch Image Processor ([mediapipe_pose_estimator.py]) *)

(** A decoded image: [image.shape = (height, width, 3)], pixels in BGR. *)
Record image := Image {
  img_height : N;
  img_width : N;
  img_pixels : list (N * N * N);
}.

(** [cv2.cvtColor(image, cv2.COLOR_BGR2RGB)] *)
Definition cvtColor_BGR2RGB (img : image) : image :=
  Image (img_height img) (img_width img)
    (map (λ '(b, g, r), (r, g, b)) (img_pixels img)).

(** One landmark as MediaPipe returns it. *)
Record pb_landmark := PbLandmark {
  pb_x : pyfloat;
  pb_y : pyfloat;
  pb_z : pyfloat;
  pb_visibility : pyfloat;
}.

(** The result of [self.pose.process]. *)
Record pose_results := PoseResults {
  pose_landmarks : option (list pb_landmark);
  segmentation_mask : option (list pyfloat);
}.

(** An entry of [landmarks_dict['landmarks']]. *)
Record landmark := Landmark {
  lm_id : nat;
  lm_x : pyfloat;
  lm_y : pyfloat;
  lm_z : pyfloat;
  lm_visibility : pyfloat;
}.

Record landmarks_dict := LandmarksDict {
  landmarks : list landmark;
  image_size_width : N;
  image_size_height : N;
}.

(** The external collaborators of the processor. *)
Record External := {
  (** [cv2.imread] on the bytes of a regular file: [None] when the bytes do
      not decode. *)
  imread_data : string → outcome (option image);
  (** the encoder [cv2.imwrite] selects from the file name *)
  imencode : string → image → outcome string;
  (** [self.pose.process(image_rgb)] *)
  pose_process : image → outcome pose_results;
  (** [mp_drawing.draw_landmarks] with the fixed drawing specs *)
  draw_landmarks : image → list pb_landmark → image;
  (** [cv2.addWeighted(output_image, 0.9, GRAY2BGR(uint8(mask * 255)), 0.1, 0)] *)
  overlay_mask : image → list pyfloat → image;
}.

Global Instance outcome_ret : MRet outcome := λ A a, Ret a.
Global Instance outcome_bind : MBind outcome := λ A B f m,
  match m with
  | Ret a => f a
  | Raise e => Raise e
  end.

(** [f"Image size: {landmarks_dict['image_size']}"] prints the [repr] of the
    dict [{'width': w, 'height': h}]. *)
Definition repr_image_size (d : landmarks_dict) : string :=
  "{'width': " +:+ pretty (image_size_width d)
  +:+ ", 'height': " +:+ pretty (image_size_height d) +:+ "}".

Definition landmark_block (lm : landmark) : string :=
  "ID: " +:+ pretty (lm_id lm) +:+ LF
  +:+ "Position: x=" +:+ format_4f (lm_x lm)
  +:+ ", y=" +:+ format_4f (lm_y lm)
  +:+ ", z=" +:+ format_4f (lm_z lm) +:+ LF
  +:+ "Visibility: " +:+ format_4f (lm_visibility lm) +:+ LF +:+ LF.

(** The text [save_landmarks] writes, one [f.write] after the other. *)
Definition landmarks_text (d : landmarks_dict) : string :=
  "Image size: " +:+ repr_image_size d +:+ LF +:+ LF
  +:+ "Landmarks:" +:+ LF
  +:+ String.concat "" (map landmark_block (landmarks d)).

Section Processor.
Variable X : External.

(** [cv2.imread(str(image_file))]: [None] for a missing file, a directory
    or undecodable bytes. *)
Definition imread (p : path) : M (option image) :=
  fs ← get_fs;
  match lookup_node fs p with
  | Some (File data) => lift (imread_data X data)
  | _ => mret None
  end.

(** [cv2.imwrite(str(output_file), img)]: returns [False], writing
    nothing, when the file cannot be opened for writing. *)
Definition imwrite (dir : path) (name : string) (img : image) : M bool :=
  data ← lift (imencode X name img);
  fs ← get_fs;
  match lookup_node fs (dir ++ [name]) with
  | Some Dir => mret false
  | _ =>
      put_fs (<[dir ++ [name] := File data]> fs);;
      emit (EWriteImage (dir ++ [name]));;
      mret true
  end.

(** [process_image] *)
Definition process_image (img : image)
  : outcome (image * option landmarks_dict) :=
  let image_rgb := cvtColor_BGR2RGB img in
  let image_height := img_height img in
  let image_width := img_width img in
  results ← pose_process X image_rgb;
  let output_image := img in
  match pose_landmarks results with
  | Some lms =>
      let output_image := draw_landmarks X output_image lms in
      let d :=
        LandmarksDict
          (imap (λ idx lm,
                 Landmark idx (pb_x lm) (pb_y lm) (pb_z lm) (pb_visibility lm))
             lms)
          image_width image_height in
      let output_image :=
        match segmentation_mask results with
        | Some mask => overlay_mask X output_image mask
        | None => output_image
        end in
      mret (output_image, Some d)
  | None => mret (output_image, None)
  end.

(** [save_landmarks]: [open(output_file, 'w')] fails on a directory;
    otherwise the file is created or truncated and the text written. *)
Definition save_landmarks (d : landmarks_dict) (output_file : path) : M unit :=
  fs ← get_fs;
  match lookup_node fs output_file with
  | Some Dir => raise (IsADirectoryError (str_path output_file))
  | _ =>
      put_fs (<[output_file := File (landmarks_text d)]> fs);;
      emit (EWriteText output_file)
  end.

Definition pose_name (name : string) : string := "pose_" +:+ name.
Definition landmarks_name (name : string) : string :=
  "landmarks_" +:+ stem name +:+ ".txt".

(** The body of the [try] statement for one image file. *)
Definition process_file (input_path output_path : path) (name : string)
  : M unit :=
  image ← imread (input_path ++ [name]);
  match image with
  | None =>
      print (LF +:+ "無法讀取圖片: " +:+ str_path (input_path ++ [name]))
  | Some image =>
      '(result_image, landmarks_dict) ← lift (process_image image);
      imwrite output_path (pose_name name) result_image;;
      match landmarks_dict with
      | Some d => save_landmarks d (output_path ++ [landmarks_name name])
      | None => mret ()
      end
  end.

(** One iteration of the loop: the [try] body and its handler. *)
Definition process_file_guarded (input_path output_path : path)
  (name : string) : M unit :=
  try_except (process_file input_path output_path name)
    (λ e, print (LF +:+ "處理 " +:+ name +:+ " 時發生錯誤: " +:+ str_exn e)).

Fixpoint for_each (names : list string) (body : string → M unit) : M unit :=
  match names with
  | [] => mret ()
  | n :: rest => body n;; for_each rest body
  end.

Definition patterns : list string := ["*.jpg"; "*.jpeg"; "*.png"; "*.bmp"].

(** The list [image_files] after the [sorted] call, as file names. *)
Definition image_files (fs : filesystem) (input_path : path) : list string :=
  sorted (flat_map (glob fs input_path) patterns).

(** [process_directory] *)
Definition process_directory (input_path output_path : path) : M unit :=
  mkdir output_path;;
  fs ← get_fs;
  let files := image_files fs input_path in
  match files with
  | [] => print ("警告: 在 " +:+ str_path input_path +:+ " 中未找到圖片文件")
  | _ =>
      print (LF +:+ "開始處理 " +:+ pretty (length files) +:+ " 張圖片...");;
      for_each files (process_file_guarded input_path output_path)
  end.
End Processor.

(** ** Notions used to state the properties *)

Definition ends_with (suffix name : string) : Prop :=
  ∃ s, name = s +:+ suffix.

(** A name is recognized when it ends in one of the four extensions. *)
Definition recognized (name : string) : Prop :=
  ends_with ".jpg" name ∨ ends_with ".jpeg" name
  ∨ ends_with ".png" name ∨ ends_with ".bmp" name.

(** The last two characters of a name tell the four extensions apart. *)
Fixpoint last2 (s : string) : string :=
  match s with
  | String _ (String _ (String _ _) as s') => last2 s'
  | _ => s
  end.

Section ProcessorNotions.
Variable X : External.
Variables input_path output_path : path.

(** What the collaborators decide for one file, before anything is
    written: the file is unreadable, an exception is raised, or the
    encoded result image and the optional landmarks are ready. *)
Inductive plan :=
  | PUnreadable
  | PRaise (e : exn)
  | PImage (data : string) (ld : option landmarks_dict).

Definition plan_of (fs : filesystem) (name : string) : plan :=
  match lookup_node fs (input_path ++ [name]) with
  | Some (File data) =>
      match imread_data X data with
      | Raise e => PRaise e
      | Ret None => PUnreadable
      | Ret (Some img) =>
          match process_image X img with
          | Raise e => PRaise e
          | Ret (result_image, ld) =>
              match imencode X (pose_name name) result_image with
              | Raise e => PRaise e
              | Ret data' => PImage data' ld
              end
          end
      end
  | _ => PUnreadable
  end.

Definition pose_path (name : string) : path := output_path ++ [pose_name name].
Definition landmarks_path (name : string) : path :=
  output_path ++ [landmarks_name name].

Definition write_image (name data : string) (w : world) : world :=
  match lookup_node (w_fs w) (pose_path name) with
  | Some Dir => w
  | _ => World (<[pose_path name := File data]> (w_fs w))
           (w_trace w ++ [EWriteImage (pose_path name)])
  end.

Definition run_plan (name : string) (pl : plan) (w : world)
  : outcome unit * world :=
  match pl with
  | PUnreadable =>
      print (LF +:+ "無法讀取圖片: " +:+ str_path (input_path ++ [name])) w
  | PRaise e => (Raise e, w)
  | PImage data None => (Ret (), write_image name data w)
  | PImage data (Some d) =>
      save_landmarks d (landmarks_path name) (write_image name data w)
  end.

(** The handler turns every exception of the body into one printed line
    naming the file; the iteration itself never raises. *)
Definition error_line (name : string) (e : exn) : string :=
  LF +:+ "處理 " +:+ name +:+ " 時發生錯誤: " +:+ str_exn e.

(** The directories are the same and every path outside the listed ones
    is untouched. *)
Definition changes_only (ps : list path) (fs fs' : filesystem) : Prop :=
  (∀ p, lookup_node fs' p = Some Dir ↔ lookup_node fs p = Some Dir)
  ∧ (∀ p, p ∉ ps → lookup_node fs' p = lookup_node fs p).

Definition outputs_of (names : list string) : list path :=
  names ≫= λ n, [pose_path n; landmarks_path n].

(** The text file one iteration writes, and the image file it writes. *)
Definition text_written (fs : filesystem) (n : string) : option path :=
  match plan_of fs n with
  | PImage _ (Some _) =>
      if is_dir fs (landmarks_path n) then None else Some (landmarks_path n)
  | _ => None
  end.

Definition image_written (fs : filesystem) (n : string) : option path :=
  match plan_of fs n with
  | PImage _ _ => if is_dir fs (pose_path n) then None else Some (pose_path n)
  | _ => None
  end.

Definition warning_line : string :=
  "警告: 在 " +:+ str_path input_path +:+ " 中未找到圖片文件".

Definition start_line (n : nat) : string :=
  LF +:+ "開始處理 " +:+ pretty n +:+ " 張圖片...".

End ProcessorNotions.


(** The landmark collection [process_image] extracts for the file [n] of
    the input directory, when the file decodes and a pose is detected on
    it. *)
Definition detected (X : External) (input_path : path) (fs : filesystem)
  (n : string) : option landmarks_dict :=
  match lookup_node fs (input_path ++ [n]) with
  | Some (File data) =>
      match imread_data X data with
      | Ret (Some img) =>
          match process_image X img with
          | Ret (_, ld) => ld
          | Raise _ => None
          end
      | _ => None
      end
  | _ => None
  end.


(** The spec's sentence on landmark files, for a run of the loop from the
    world [w]: the landmark file of a recognized image exists afterwards
    exactly when a pose was detected on that image. *)
Definition landmarks_iff_detected (X : External) (input_path output_path : path)
  (w : world) : Prop :=
  let files := image_files (w_fs w) input_path in
  let w' := after (for_each files (process_file_guarded X input_path output_path)) w in
  ∀ n, n ∈ files →
    (is_Some (w_fs w' !! landmarks_path output_path n)
     ↔ is_Some (detected X input_path (w_fs w) n)).

(** The spec's sentence on an image without a pose, for the file [n]
    processed in the world [w]: the file written under the [pose_] name is
    a copy of the input file, byte for byte, or at least decodes to the
    same pixels. *)
Definition copies_input (X : External) (input_path output_path : path)
  (n : string) (w : world) : Prop :=
  ∀ data img results,
    w_fs w !! (input_path ++ [n]) = Some (File data) →
    imread_data X data = Ret (Some img) →
    pose_process X (cvtColor_BGR2RGB img) = Ret results →
    pose_landmarks results = None →
    ∃ out,
      w_fs (after (process_file X input_path output_path n) w)
        !! pose_path output_path n = Some (File out)
      ∧ (out = data ∨ imread_data X out = Ret (Some img)).

(** ** A concrete set of collaborators, for examples

    A toy lossless codec (one grey pixel per byte, an empty file does not
    decode) and a toy estimator that finds one landmark exactly in images
    six pixels wide, at an [x] read off the first pixel. *)
Definition demo_image (data : string) : image :=
  Image 1 (N.of_nat (String.length data))
    (map (λ c, let v := N_of_ascii c in (v, v, v)) (String.list_ascii_of_string data)).

Definition demo_data (img : image) : string :=
  String.string_of_list_ascii (map (λ '(b, _, _), ascii_of_N b) (img_pixels img)).

Definition half : pyfloat := Ffinite false 1 (-1).

Definition demo : External := {|
  imread_data data :=
    Ret (if bool_decide (data = "") then None else Some (demo_image data));
  imencode _ img := Ret (demo_data img);
  pose_process img :=
    Ret (if (img_width img =? 6)%N
         then
           let x := match img_pixels img with
                    | (r, _, _) :: _ => Ffinite false r (-8)
                    | [] => half
                    end in
           PoseResults (Some [PbLandmark x half half half]) None
         else PoseResults None None);
  draw_landmarks img _ :=
    Image (img_height img) (img_width img)
      (match img_pixels img with
       | [] => []
       | _ :: rest => (0, 255, 0)%N :: rest
       end);
  overlay_mask img _ := img;
|}.

(** The same collaborators with a lossy encoder, in the manner of JPEG:
    only the four high bits of every sample are kept. *)
Definition coarse (img : image) : image :=
  Image (img_height img) (img_width img)
    (map (λ '(b, g, r), (N.land b 240, N.land g 240, N.land r 240))
       (img_pixels img)).

Definition lossy : External := {|
  imread_data := imread_data demo;
  imencode _ img := Ret (demo_data (coarse img));
  pose_process := pose_process demo;
  draw_landmarks := draw_landmarks demo;
  overlay_mask := overlay_mask demo;
|}.

Definition data_dir : path := ["data"].
Definition out_dir : path := ["data"; "output2"].


(** Two images of the same stem: [a.jpg] shows no pose, [a.png] shows one. *)
Definition fs_same_stem : filesystem :=
  list_to_map [
    (["data"], Dir);
    (["data"; "a.jpg"], File "wall");
    (["data"; "a.png"], File "person");
    (["data"; "output2"], Dir)
  ].

(** Two images of the same stem, a pose on each. *)
Definition fs_two_poses : filesystem :=
  list_to_map [
    (["data"], Dir);
    (["data"; "a.jpg"], File "person");
    (["data"; "a.png"], File "friend");
    (["data"; "output2"], Dir)
  ].

(** No image at all, only a text file and an upper-case extension. *)
Definition fs_no_images : filesystem :=
  list_to_map [
    (["data"], Dir);
    (["data"; "notes.txt"], File "hello");
    (["data"; "A.JPG"], File "person")
  ].

(** ** Whole scripts

    How a script run ends: it runs off the end of the file (status 0), it
    calls [exit(code)], or an exception escapes and Python prints the
    traceback (status 1). *)
Inductive termination :=
  | Completed
  | SystemExit (code : Z)
  | Traceback (e : exn).

Definition exit_status (t : termination) : Z :=
  match t with
  | Completed => 0
  | SystemExit code => code
  | Traceback _ => 1
  end.

(** Run a block at the top level of a script, then the rest of the script. *)
Definition top_level (block : M unit) (rest : world → termination * world)
  : world → termination * world := λ w,
  match block w with
  | (Ret _, w') => rest w'
  | (Raise e, w') => (Traceback e, w')
  end.

(** ** The Batch Invoker ([openpose_pose_estimator.py]) *)

(** A [Path] built from a string: absolute, or relative to the working
    directory.  A leading [./] is dropped by [Path]. *)
Inductive pypath :=
  | Abs (parts : list string)
  | Rel (parts : list string).

Definition join (sep : string) (l : list string) : string := String.concat sep l.

(** [str(Path)] *)
Definition str_pypath (p : pypath) : string :=
  match p with
  | Abs parts => str_path parts
  | Rel [] => "."
  | Rel parts => join "/" parts
  end.

Definition resolve (cwd : path) (p : pypath) : path :=
  match p with
  | Abs parts => parts
  | Rel parts => cwd ++ parts
  end.

Definition input_dir : path :=
  ["Users"; "joyfulsucessful"; "Desktop"; "AIGC"; "AIGC_test";
   "woman-posing_512_8fps_8s"].

Definition output_dir : path := input_dir ++ ["output"].

Definition possible_paths : list pypath := [
  Rel ["build"; "examples"; "openpose"; "openpose.bin"];
  Abs ["usr"; "local"; "bin"; "openpose.bin"];
  Rel ["C:"; "Program Files"; "OpenPose"; "bin"; "OpenPoseDemo.exe"]
].

(** What [subprocess.run(command, capture_output=True, text=True)] observes
    of the child: it ran and exited, possibly changing the filesystem, or
    it could not be run at all. *)
Inductive child :=
  | Exited (returncode : Z) (out err : string) (fs' : filesystem)
  | NotStarted (e : exn).

Record Host := {
  (** the behaviour of a command started on a filesystem *)
  run_command : list string → filesystem → child;
  (** [repr(signal.Signals(n))], or [unknown signal n] *)
  signal_repr : Z → string;
  (** [sys.executable] *)
  sys_executable : string;
  (** whether [import package] succeeds in this interpreter *)
  can_import : string → bool;
}.

(** [repr] of a list of strings free of quotes, backslashes and control
    characters. *)
Definition repr_list (l : list string) : string :=
  "[" +:+ join ", " (map (λ s, "'" +:+ s +:+ "'") l) +:+ "]".

(** [str(CalledProcessError(returncode, cmd))] *)
Definition str_called_process_error (H : Host) (returncode : Z)
  (cmd : list string) : string :=
  if (returncode <? 0)%Z
  then "Command '" +:+ repr_list cmd +:+ "' died with "
       +:+ signal_repr H (- returncode) +:+ "."
  else "Command '" +:+ repr_list cmd +:+ "' returned non-zero exit status "
       +:+ pretty returncode +:+ ".".

(** [subprocess.run(command, capture_output=True, text=True, check=True)] *)
Definition subprocess_run_checked (H : Host) (command : list string) : M unit :=
  emit (ESpawn command);;
  fs ← get_fs;
  match run_command H command fs with
  | Exited returncode out err fs' =>
      put_fs fs';;
      if bool_decide (returncode = 0%Z) then mret ()
      else raise (CalledProcessError
                    (str_called_process_error H returncode command) err)
  | NotStarted e => raise e
  end.

Definition guidance : list string := [
  "錯誤：找不到 OpenPose 執行檔！";
  "請確認 OpenPose 已正確安裝，並提供正確的執行檔路徑。";
  LF +:+ "可能的解決方案：";
  "1. 確認 OpenPose 已正確安裝";
  "2. 手動指定 OpenPose 執行檔的完整路徑";
  "3. 將 OpenPose 加入系統環境變數"
].

Fixpoint print_all (lines : list string) : M unit :=
  match lines with
  | [] => mret ()
  | l :: rest => print l;; print_all rest
  end.

Definition command_for (openpose_binary : pypath) : list string := [
  str_pypath openpose_binary;
  "--image_dir"; str_path input_dir;
  "--write_images"; str_path output_dir;
  "--display"; "0";
  "--render_pose"; "1"
].

(** The [try] block of the invoker. *)
Definition invoke (H : Host) (openpose_binary : pypath) : M unit :=
  let command := command_for openpose_binary in
  print ("使用的 OpenPose 路徑: " +:+ str_pypath openpose_binary);;
  print ("執行命令: " +:+ join " " command);;
  subprocess_run_checked H command;;
  print (LF +:+ "處理完成！");;
  print ("輸出已保存到: " +:+ str_path output_dir).

(** The two [except] clauses of the invoker. *)
Definition invoke_handler (e : exn) : M unit :=
  match e with
  | CalledProcessError msg stderr =>
      print (LF +:+ "執行 OpenPose 時發生錯誤: " +:+ msg);;
      print ("錯誤輸出: " +:+ stderr);;
      print (LF +:+ "請檢查：");;
      print "1. OpenPose 是否正確安裝";;
      print "2. 執行檔路徑是否正確";;
      print "3. 是否有足夠的權限執行"
  | _ => print (LF +:+ "發生未預期的錯誤: " +:+ str_exn e)
  end.

(** The script, run with working directory [cwd]. *)
Definition invoker (H : Host) (cwd : path) : world → termination * world :=
  top_level
    (fs ← get_fs;
     if exists_ fs input_dir then mret ()
     else raise (FileNotFoundError ("輸入資料夾不存在: " +:+ str_path input_dir)))
  (top_level (mkdir output_dir)
  (λ w,
     let openpose_binary :=
       List.find (λ p, exists_ (w_fs w) (resolve cwd p)) possible_paths in
     match openpose_binary with
     | None =>
         match print_all guidance w with
         | (Ret _, w') => (SystemExit 1, w')
         | (Raise e, w') => (Traceback e, w')
         end
     | Some openpose_binary =>
         top_level (try_except (invoke H openpose_binary) invoke_handler)
           (λ w', (Completed, w')) w
     end)).

(** The spec's sentence on a missing executable, for a run from the world
    [w]: status 1, the guidance printed, no subprocess, and nothing at or
    below the output directory changed. *)
Definition fails_fast (H : Host) (cwd : path) (w : world) : Prop :=
  (∀ p, p ∈ possible_paths → exists_ (w_fs w) (resolve cwd p) = false) →
  let '(t, w') := invoker H cwd w in
  exit_status t = 1%Z
  ∧ (∃ before, stdout (w_trace w') = before ++ guidance)
  ∧ spawned (w_trace w') = spawned (w_trace w)
  ∧ (∀ p, output_dir `prefix_of` p → w_fs w' !! p = w_fs w !! p).

(** ** The processor as a script: imports, then [main()] *)

(** [import] of a third-party package at the top level of the module. *)
Definition import (H : Host) (package : string) : M unit :=
  emit (EImport package);;
  if can_import H package then mret ()
  else raise (ImportError ("No module named '" +:+ package +:+ "'")).

(** [install_package] *)
Definition install_package (H : Host) (package : string) : M unit :=
  print ("安裝 " +:+ package +:+ "...");;
  subprocess_run_checked H [sys_executable H; "-m"; "pip"; "install"; package].

Definition required_packages : list string := ["mediapipe"; "tqdm"].

(** The loop of [main] over [required_packages]: [__import__(package)],
    and [install_package(package)] when it raises [ImportError]. *)
Definition ensure_package (H : Host) (package : string) : M unit :=
  try_except (import H package)
    (λ e, match e with
          | ImportError _ => install_package H package
          | _ => raise e
          end).

Definition main_input_dir : path := input_dir.
Definition main_output_dir : path := input_dir ++ ["output2"].

(** [PoseEstimator()]: loading the model may fail. *)
Definition construct (model_loads : outcome unit) : M unit :=
  emit EConstruct;; lift model_loads.

(** [main] *)
Definition main (H : Host) (X : External) (model_loads : outcome unit) : M unit :=
  try_except
    (for_each required_packages (ensure_package H);;
     print "初始化姿態估計器...";;
     construct model_loads;;
     process_directory X main_input_dir main_output_dir;;
     print (LF +:+ "處理完成！結果已保存到: " +:+ str_path main_output_dir))
    (λ e, print (LF +:+ "發生錯誤: " +:+ str_exn e)).

(** The module: its top-level imports of third-party packages, in order,
    then [main()]. *)
Definition processor_script (H : Host) (X : External)
  (model_loads : outcome unit) : world → termination * world :=
  top_level (import H "cv2")
  (top_level (import H "mediapipe")
  (top_level (import H "numpy")
  (top_level (import H "tqdm")
  (top_level (main H X model_loads)
  (λ w, (Completed, w)))))).

(** The invoker as a script: its one third-party import ([cv2], line 2),
    then the statements modelled by [invoker]. *)
Definition invoker_script (H : Host) (cwd : path)
  : world → termination * world :=
  top_level (import H "cv2") (invoker H cwd).

(** A host with OpenCV and NumPy but neither MediaPipe nor tqdm. *)
Definition bare_host : Host := {|
  run_command cmd fs := Exited 0 "" "" fs;
  signal_repr n := "unknown signal " +:+ pretty n;
  sys_executable := "/usr/bin/python3";
  can_import package := bool_decide (package ∈ ["cv2"; "numpy"]);
|}.

(** A host where everything imports and OpenPose fails with status 2. *)
Definition failing_host : Host := {|
  run_command cmd fs := Exited 2 "" "Error: no images found" fs;
  signal_repr n := "unknown signal " +:+ pretty n;
  sys_executable := "/usr/bin/python3";
  can_import package := true;
|}.

Definition fs_empty : filesystem := ∅.

(** The directory [p] and the directories above it. *)
Definition dirs_to (p : path) : list (path * node) :=
  (λ k, (take k p, Dir)) <$> seq 1 (length p).

(** The input directory and an installed OpenPose. *)
Definition fs_openpose : filesystem :=
  list_to_map (dirs_to input_dir ++ dirs_to ["usr"; "local"; "bin"]
               ++ [(["usr"; "local"; "bin"; "openpose.bin"], File "ELF")]).

(** The input directory, and no OpenPose anywhere. *)
Definition fs_input_only : filesystem := list_to_map (dirs_to input_dir).

(** ** Reading the landmark text back

    A reader for the format [save_landmarks] writes.  It is strict: every
    number needs at least one digit before the point and exactly four
    after it. *)
Definition digit_of (c : ascii) : option N :=
  let code := N_of_ascii c in
  if (48 <=? code)%N && (code <=? 57)%N then Some (code - 48)%N else None.

(** Read digits as long as there are some, most significant first. *)
Fixpoint parse_digits (acc : N) (s : string) : N * string :=
  match s with
  | String c s' =>
      match digit_of c with
      | Some d => parse_digits (acc * 10 + d) s'
      | None => (acc, s)
      end
  | EmptyString => (acc, s)
  end.

Definition parse_N (s : string) : option (N * string) :=
  match s with
  | String c _ => if digit_of c is Some _ then Some (parse_digits 0 s) else None
  | EmptyString => None
  end.

(** Drop the literal [lit] from the front of [s]. *)
Fixpoint expect (lit s : string) : option string :=
  match lit with
  | EmptyString => Some s
  | String c lit' =>
      match s with
      | String c' s' => if bool_decide (c = c') then expect lit' s' else None
      | EmptyString => None
      end
  end.

Definition parse_frac4 (s : string) : option (N * string) :=
  match s with
  | String a (String b (String c (String d rest))) =>
      a ← digit_of a; b ← digit_of b; c ← digit_of c; d ← digit_of d;
      Some (a * 1000 + b * 100 + c * 10 + d, rest)%N
  | _ => None
  end.

(** An optional minus sign. *)
Definition split_sign (s : string) : bool * string :=
  match s with
  | String "-"%char s' => (true, s')
  | _ => (false, s)
  end.

Definition parse_fixed4 (s : string) : option (fixed4 * string) :=
  let '(neg, s) := split_sign s in
  '(units, s) ← parse_N s;
  s ← expect "." s;
  '(frac, s) ← parse_frac4 s;
  Some (Fixed4 neg (units * 10000 + frac), s).

(** A landmark as it can be read back: its index and four decimals. *)
Record read_landmark := ReadLandmark {
  rl_id : N;
  rl_x : fixed4;
  rl_y : fixed4;
  rl_z : fixed4;
  rl_visibility : fixed4;
}.

Definition parse_block (s : string) : option (read_landmark * string) :=
  s ← expect "ID: " s;
  '(id, s) ← parse_N s;
  s ← expect (LF +:+ "Position: x=") s;
  '(x, s) ← parse_fixed4 s;
  s ← expect ", y=" s;
  '(y, s) ← parse_fixed4 s;
  s ← expect ", z=" s;
  '(z, s) ← parse_fixed4 s;
  s ← expect (LF +:+ "Visibility: ") s;
  '(v, s) ← parse_fixed4 s;
  s ← expect (LF +:+ LF) s;
  Some (ReadLandmark id x y z v, s).

Fixpoint parse_blocks (fuel : nat) (s : string) : option (list read_landmark) :=
  match s with
  | EmptyString => Some []
  | _ =>
      match fuel with
      | O => None
      | S fuel' =>
          '(b, s') ← parse_block s;
          bs ← parse_blocks fuel' s';
          Some (b :: bs)
      end
  end.

Record read_landmarks := ReadLandmarks {
  read_width : N;
  read_height : N;
  read_blocks : list read_landmark;
}.

Definition parse_landmarks_text (s : string) : option read_landmarks :=
  s ← expect "Image size: {'width': " s;
  '(width, s) ← parse_N s;
  s ← expect ", 'height': " s;
  '(height, s) ← parse_N s;
  s ← expect ("}" +:+ LF +:+ LF +:+ "Landmarks:" +:+ LF) s;
  bs ← parse_blocks (String.length s) s;
  Some (ReadLandmarks width height bs).

(** The four-decimal value a float is printed as; none for NaN and the
    infinities, which print as [nan], [inf] and [-inf]. *)
Definition rounded (v : pyfloat) : option fixed4 :=
  match v with
  | Ffinite neg m e => Some (quantize neg m e)
  | _ => None
  end.

Definition rounded_landmark (lm : landmark) : option read_landmark :=
  x ← rounded (lm_x lm);
  y ← rounded (lm_y lm);
  z ← rounded (lm_z lm);
  v ← rounded (lm_visibility lm);
  Some (ReadLandmark (N.of_nat (lm_id lm)) x y z v).

Definition rounded_landmarks (d : landmarks_dict) : option read_landmarks :=
  bs ← mapM rounded_landmark (landmarks d);
  Some (ReadLandmarks (image_size_width d) (image_size_height d) bs).

(** The spec's sentence on the landmark text: the text of every collection
    reads back, which requires four digits after every decimal point. *)
Definition round_trips (d : landmarks_dict) : Prop :=
  is_Some (parse_landmarks_text (landmarks_text d)).

(** A collection with one landmark whose [x] is NaN. *)
Definition nan_landmarks : landmarks_dict :=
  LandmarksDict [Landmark 0 Fnan half half half] 6 1.

(** A collection with two finite landmarks. *)
Definition two_landmarks : landmarks_dict :=
  LandmarksDict
    [Landmark 0 (Ffinite false 5 (-5)) half (Ffinite true 3 (-5)) half;
     Landmark 1 (Ffinite false 102 (-8)) half (Ffinite true 1 (-20))
       (Ffinite false 1 0)]
    640 480.

(** The text that follows a number does not start with a digit. *)
Definition no_digit_head (s : string) : Prop :=
  match s with
  | String c _ => digit_of c = None
  | EmptyString => True
  end.

(** The text of one block, from the values read back. *)
Definition read_block_text (b : read_landmark) : string :=
  "ID: " +:+ pretty (rl_id b) +:+ LF
  +:+ "Position: x=" +:+ str_fixed4 (rl_x b)
  +:+ ", y=" +:+ str_fixed4 (rl_y b)
  +:+ ", z=" +:+ str_fixed4 (rl_z b) +:+ LF
  +:+ "Visibility: " +:+ str_fixed4 (rl_visibility b) +:+ LF +:+ LF.

(** [two_landmarks], read back. *)
Definition two_landmarks_read : read_landmarks :=
  ReadLandmarks 640 480
    [ReadLandmark 0 (Fixed4 false 1562) (Fixed4 false 5000)
       (Fixed4 true 938) (Fixed4 false 5000);
     ReadLandmark 1 (Fixed4 false 3984) (Fixed4 false 5000)
       (Fixed4 true 0) (Fixed4 false 10000)].

(** An empty file under an image name, next to a readable image. *)
Definition fs_corrupt : filesystem :=
  list_to_map [
    (["data"], Dir);
    (["data"; "a.jpg"], File "");
    (["data"; "b.jpg"], File "wall");
    (["data"; "output2"], Dir)
  ].

(** One image with a pose; a directory squats on the name of its rendered
    image. *)
Definition fs_image_blocked : filesystem :=
  list_to_map [
    (["data"], Dir);
    (["data"; "a.jpg"], File "person");
    (["data"; "output2"], Dir);
    (["data"; "output2"; "pose_a.jpg"], Dir)
  ].

(** A regular file where the invoker expects its input directory. *)
Definition fs_input_is_file : filesystem :=
  <[input_dir := File "not a directory"]>
    (list_to_map (dirs_to (removelast input_dir))).

(** A host on which the located file cannot be executed. *)
Definition noexec_host : Host := {|
  run_command cmd fs := NotStarted (OtherError "[Errno 13] Permission denied");
  signal_repr n := "unknown signal " +:+ pretty n;
  sys_executable := "/usr/bin/python3";
  can_import package := true;
|}.
(** * Properties *)

Example stem_examples :
  stem "a.jpg" = "a" ∧ stem "a.b.png" = "a.b" ∧ stem ".jpg" = ".jpg"
  ∧ stem "a..jpg" = "a." ∧ stem "noext" = "noext".
Proof. repeat split. Qed.

Example fnmatch_examples :
  fnmatch "*.jpg" "a.jpg" = true ∧ fnmatch "*.jpg" ".jpg" = true
  ∧ fnmatch "*.jpg" "a.JPG" = false ∧ fnmatch "*.jpg" "a.jpg.txt" = false
  ∧ fnmatch "*.jpeg" "x.y.jpeg" = true.
Proof. repeat split. Qed.

Example sorted_example : sorted ["b.png"; "a.png"; "a.jpg"; "B.jpg"] = ["B.jpg"; "a.jpg"; "a.png"; "b.png"].
Proof. vm_compute. reflexivity. Qed.

Example format_4f_examples :
  format_4f (Ffinite false 1 (-1)) = "0.5000"
  ∧ format_4f (Ffinite false 5 (-5)) = "0.1562"
  ∧ format_4f (Ffinite true 3 (-5)) = "-0.0938"
  ∧ format_4f (Ffinite true 1 (-20)) = "-0.0000"
  ∧ format_4f (Ffinite false 0 0) = "0.0000"
  ∧ format_4f (Ffinite false 2384185791015625 22) = "10000000000000000000000.0000"
  ∧ format_4f Fnan = "nan".
Proof. vm_compute. repeat split. Qed.

(** ** Matching and directory listings *)

Lemma fnmatch_star pat name :
  fnmatch (String "*"%char pat) name = true
  ↔ ∃ s1 s2, name = s1 +:+ s2 ∧ fnmatch pat s2 = true.
Proof.
  induction name as [|c name IH].
  - simpl. rewrite orb_false_r. split.
    + intros H. exists "", "". split; [reflexivity|exact H].
    + intros (s1 & s2 & Heq & H). destruct s1, s2; try discriminate Heq. exact H.
  - change (fnmatch (String "*"%char pat) (String c name))
      with (fnmatch pat (String c name) || fnmatch (String "*"%char pat) name).
    rewrite orb_true_iff, IH. split.
    + intros [H | (s1 & s2 & -> & H)].
      * exists "", (String c name). split; [reflexivity|exact H].
      * exists (String c s1), s2. split; [reflexivity|exact H].
    + intros (s1 & s2 & Heq & H). destruct s1 as [|c' s1].
      * left. change (String c name = s2) in Heq. by subst.
      * right. injection Heq as -> ->. exists s1, s2. split; [reflexivity|exact H].
Qed.

Local Ltac literal_match :=
  split;
  [ intros H; simpl in H;
    repeat match type of H with
      | (bool_decide _ && _) = true =>
          apply andb_prop in H as [?%bool_decide_eq_true H]; subst
      | context [match ?s with EmptyString => _ | String _ _ => _ end] =>
          destruct s as [|? ?]; try discriminate H
      end; reflexivity
  | intros ->; reflexivity ].

Lemma fnmatch_dot_jpg s : fnmatch ".jpg" s = true ↔ s = ".jpg".
Proof. literal_match. Qed.
Lemma fnmatch_dot_jpeg s : fnmatch ".jpeg" s = true ↔ s = ".jpeg".
Proof. literal_match. Qed.
Lemma fnmatch_dot_png s : fnmatch ".png" s = true ↔ s = ".png".
Proof. literal_match. Qed.
Lemma fnmatch_dot_bmp s : fnmatch ".bmp" s = true ↔ s = ".bmp".
Proof. literal_match. Qed.

Lemma fnmatch_patterns name :
  (∃ pat, pat ∈ patterns ∧ fnmatch pat name = true) ↔ recognized name.
Proof.
  unfold patterns, recognized, ends_with. split.
  - intros (pat & Hin & H).
    repeat (apply elem_of_cons in Hin as [-> | Hin]);
      [ | | | | by apply elem_of_nil in Hin ];
      apply fnmatch_star in H as (s1 & s2 & -> & H).
    + apply fnmatch_dot_jpg in H as ->. eauto.
    + apply fnmatch_dot_jpeg in H as ->. eauto.
    + apply fnmatch_dot_png in H as ->. eauto 6.
    + apply fnmatch_dot_bmp in H as ->. eauto 6.
  - intros [[s ->] | [[s ->] | [[s ->] | [s ->]]]].
    + exists "*.jpg". split; [set_solver|].
      apply fnmatch_star. exists s, ".jpg". done.
    + exists "*.jpeg". split; [set_solver|].
      apply fnmatch_star. exists s, ".jpeg". done.
    + exists "*.png". split; [set_solver|].
      apply fnmatch_star. exists s, ".png". done.
    + exists "*.bmp". split; [set_solver|].
      apply fnmatch_star. exists s, ".bmp". done.
Qed.

Lemma child_name_Some d p n : child_name d p = Some n ↔ p = d ++ [n].
Proof.
  revert p. induction d as [|c d IH]; intros p; simpl.
  - destruct p as [|n' [|? ?]]; naive_solver.
  - destruct p as [|c' p]; [naive_solver|].
    case_decide; subst; [rewrite IH|]; naive_solver.
Qed.

Lemma elem_of_iterdir fs d n :
  n ∈ iterdir fs d ↔ is_dir fs d = true ∧ is_Some (fs !! (d ++ [n])).
Proof.
  unfold iterdir. destruct (is_dir fs d); [|set_solver].
  rewrite list_elem_of_omap. split.
  - intros (p & Hp & Hc). apply child_name_Some in Hc as ->.
    apply list_elem_of_fmap in Hp as ([p v] & -> & Hp).
    apply elem_of_map_to_list in Hp. simpl. eauto.
  - intros [_ [v Hv]]. exists (d ++ [n]). split.
    + apply list_elem_of_fmap. exists (d ++ [n], v). split; [done|].
      by apply elem_of_map_to_list.
    + by apply child_name_Some.
Qed.

Lemma NoDup_iterdir fs d : NoDup (iterdir fs d).
Proof.
  unfold iterdir. destruct (is_dir fs d); [|constructor].
  pose proof (NoDup_fst_map_to_list fs) as Hnd.
  induction Hnd as [|p l Hp Hnd IH]; simpl; [constructor|].
  destruct (child_name d p) as [n|] eqn:Hn; [|done].
  constructor; [|done].
  intros Hin. apply list_elem_of_omap in Hin as (p' & Hp' & Hn').
  apply child_name_Some in Hn, Hn'. by subst.
Qed.

Lemma last2_app s t : 2 ≤ String.length t → last2 (s +:+ t) = last2 t.
Proof.
  intros Ht. induction s as [|c s IH]; [done|].
  change (String c s +:+ t) with (String c (s +:+ t)).
  rewrite <- IH.
  assert (2 ≤ String.length (s +:+ t)) as Hlen.
  { clear IH. induction s as [|c' s IHs]; [done|].
    change (String c' s +:+ t) with (String c' (s +:+ t)). simpl. lia. }
  destruct (s +:+ t) as [|x [|y r]]; simpl in Hlen; try lia. done.
Qed.

Lemma recognized_last2 name :
  recognized name →
  (ends_with ".jpg" name ∧ last2 name = "pg")
  ∨ (ends_with ".jpeg" name ∧ last2 name = "eg")
  ∨ (ends_with ".png" name ∧ last2 name = "ng")
  ∨ (ends_with ".bmp" name ∧ last2 name = "mp").
Proof.
  intros [H | [H | [H | H]]]; pose proof H as [s ->];
    rewrite last2_app by (simpl; lia); simpl; auto 6.
Qed.

(** Upper-case extensions are not recognized: the match is on the literal
    lower-case patterns. *)
Lemma upper_case_not_recognized s :
  ¬ recognized (s +:+ ".JPG") ∧ ¬ recognized (s +:+ ".JPEG")
  ∧ ¬ recognized (s +:+ ".PNG") ∧ ¬ recognized (s +:+ ".BMP").
Proof.
  repeat split; intros H; apply recognized_last2 in H;
    rewrite last2_app in H by (simpl; lia); simpl in H;
    destruct H as [[_ H] | [[_ H] | [[_ H] | [_ H]]]]; discriminate H.
Qed.

Lemma glob_disjoint fs d pat1 pat2 n :
  pat1 ∈ patterns → pat2 ∈ patterns → pat1 ≠ pat2 →
  n ∈ glob fs d pat1 → n ∈ glob fs d pat2 → False.
Proof.
  unfold glob, patterns. rewrite !list_elem_of_filter.
  intros H1 H2 Hne [Hm1 _] [Hm2 _].
  repeat (apply elem_of_cons in H1 as [-> | H1]);
    [ | | | | by apply elem_of_nil in H1 ];
    repeat (apply elem_of_cons in H2 as [-> | H2]);
    try (by apply elem_of_nil in H2); try done;
    apply fnmatch_star in Hm1 as (s1 & t1 & -> & Hm1);
    apply fnmatch_star in Hm2 as (s2 & t2 & Heq & Hm2);
    first [ apply fnmatch_dot_jpg in Hm1 as -> | apply fnmatch_dot_jpeg in Hm1 as ->
          | apply fnmatch_dot_png in Hm1 as -> | apply fnmatch_dot_bmp in Hm1 as -> ];
    first [ apply fnmatch_dot_jpg in Hm2 as -> | apply fnmatch_dot_jpeg in Hm2 as ->
          | apply fnmatch_dot_png in Hm2 as -> | apply fnmatch_dot_bmp in Hm2 as -> ];
    apply (f_equal last2) in Heq;
    rewrite !last2_app in Heq by (simpl; lia); discriminate Heq.
Qed.

Lemma elem_of_image_files fs d n :
  n ∈ image_files fs d ↔ n ∈ iterdir fs d ∧ recognized n.
Proof.
  unfold image_files, sorted. rewrite merge_sort_Permutation.
  rewrite list_elem_of_In, in_flat_map, <- fnmatch_patterns.
  setoid_rewrite <- list_elem_of_In. unfold glob.
  setoid_rewrite list_elem_of_filter. naive_solver.
Qed.

Lemma NoDup_image_files fs d : NoDup (image_files fs d).
Proof.
  unfold image_files, sorted. rewrite merge_sort_Permutation.
  assert (∀ pat, NoDup (glob fs d pat)) as Hnd.
  { intros pat. apply NoDup_filter, NoDup_iterdir. }
  assert (∀ p1 p2 n, p1 ∈ patterns → p2 ∈ patterns → p1 ≠ p2 →
            n ∈ glob fs d p1 → n ∈ glob fs d p2 → False) as Hdis.
  { intros p1 p2 n ?????. by apply (glob_disjoint fs d p1 p2 n). }
  assert (∀ p1 p2 n, p1 ∈ patterns → p2 ∈ patterns → p1 ≠ p2 →
            n ∈ glob fs d p1 → n ∉ glob fs d p2) as Hnot.
  { intros p1 p2 n ???? Hn2. by apply (Hdis p1 p2 n). }
  unfold patterns in *. simpl. rewrite app_nil_r.
  repeat (apply NoDup_app; split_and!; [apply Hnd| |]); try apply Hnd;
    intros n Hn1; rewrite ?not_elem_of_app; split_and?;
    (eapply Hnot; [| | |exact Hn1]; [set_solver|set_solver|done]).
Qed.

(** ** One iteration of the processor's loop *)

Section ProcessorFacts.
Variable X : External.
Variables input_path output_path : path.

Local Abbreviation body := (process_file X input_path output_path).
Local Abbreviation guarded := (process_file_guarded X input_path output_path).
Local Abbreviation loop names := (for_each names guarded).
Local Abbreviation plan_of := (plan_of X input_path).
Local Abbreviation pose_path := (pose_path output_path).
Local Abbreviation landmarks_path := (landmarks_path output_path).
Local Abbreviation write_image := (write_image output_path).
Local Abbreviation run_plan := (run_plan input_path output_path).
Local Abbreviation outputs_of := (outputs_of output_path).
Local Abbreviation text_written := (text_written X input_path output_path).
Local Abbreviation image_written := (image_written X input_path output_path).
Local Abbreviation warning_line := (warning_line input_path).

Lemma process_file_plan name w :
  body name w = run_plan name (plan_of (w_fs w) name) w.
Proof.
  unfold process_file, plan_of, run_plan, imread, imwrite, write_image.
  unfold mbind, M_bind, mret, M_ret, get_fs, lift, put_fs, emit. simpl.
  destruct (lookup_node (w_fs w) (input_path ++ [name])) as [[|data]|]; try done.
  destruct (imread_data X data) as [[img|]|e]; try done.
  destruct (process_image X img) as [[result_image [d|]]|e]; try done;
    destruct (imencode X (pose_name name) result_image) as [data'|e]; try done;
    unfold pose_path; simpl;
    destruct (lookup_node (w_fs w) (output_path ++ [pose_name name]))
      as [[|?]|]; simpl; try done; by destruct w.
Qed.

Lemma guarded_Ret name w w' :
  body name w = (Ret (), w') → guarded name w = (Ret (), w').
Proof. unfold process_file_guarded, try_except. by intros ->. Qed.

Lemma guarded_Raise name w e w' :
  body name w = (Raise e, w') →
  guarded name w
  = (Ret (), World (w_fs w') (w_trace w' ++ [EPrint (error_line name e)])).
Proof. unfold process_file_guarded, try_except. by intros ->. Qed.

Lemma guarded_total name w : result (guarded name) w = Ret ().
Proof.
  unfold result. destruct (body name w) as [[[]|e] w'] eqn:H.
  - by rewrite (guarded_Ret _ _ _ H).
  - by rewrite (guarded_Raise _ _ _ _ H).
Qed.

Lemma guarded_after name w : guarded name w = (Ret (), after (guarded name) w).
Proof.
  pose proof (guarded_total name w) as H. unfold result, after in *.
  destruct (guarded name w) as [r w']. simpl in *. by subst.
Qed.

(** The loop is a left fold of the iterations. *)
Lemma for_each_guarded names w :
  for_each names guarded w
  = (Ret (), foldl (λ w n, after (guarded n) w) w names).
Proof.
  revert w. induction names as [|n names IH]; intros w; [done|].
  simpl. unfold mbind, M_bind. rewrite guarded_after. apply IH.
Qed.

Lemma after_for_each_app l1 l2 w :
  after (for_each (l1 ++ l2) guarded) w
  = after (for_each l2 guarded) (after (for_each l1 guarded) w).
Proof. unfold after. rewrite !for_each_guarded. simpl. by rewrite foldl_app. Qed.

Lemma after_for_each_cons n l w :
  after (for_each (n :: l) guarded) w
  = after (for_each l guarded) (after (guarded n) w).
Proof. unfold after. by rewrite !for_each_guarded. Qed.


(** *** What one iteration changes *)

Lemma lookup_node_child fs d n : lookup_node fs (d ++ [n]) = fs !! (d ++ [n]).
Proof. unfold lookup_node. by destruct d. Qed.

Lemma lookup_node_insert_ne fs q v p :
  q ≠ p → lookup_node (<[q := v]> fs) p = lookup_node fs p.
Proof. intros. unfold lookup_node. destruct p; [done|]. by rewrite lookup_insert_ne. Qed.

Lemma lookup_node_insert_eq fs d n v :
  lookup_node (<[d ++ [n] := v]> fs) (d ++ [n]) = Some v.
Proof. by rewrite lookup_node_child, lookup_insert_eq. Qed.

Lemma changes_only_refl ps fs : changes_only ps fs fs.
Proof. by split. Qed.

Lemma changes_only_trans ps fs1 fs2 fs3 :
  changes_only ps fs1 fs2 → changes_only ps fs2 fs3 → changes_only ps fs1 fs3.
Proof.
  intros [Hd1 Hf1] [Hd2 Hf2]. split.
  - intros p. by rewrite Hd2, Hd1.
  - intros p Hp. by rewrite Hf2, Hf1.
Qed.

Lemma changes_only_mono ps qs fs fs' :
  ps ⊆ qs → changes_only ps fs fs' → changes_only qs fs fs'.
Proof. intros Hsub [Hd Hf]. split; [done|]. intros p Hp. apply Hf. set_solver. Qed.

Lemma changes_only_insert fs d n data ps :
  lookup_node fs (d ++ [n]) ≠ Some Dir → d ++ [n] ∈ ps →
  changes_only ps fs (<[d ++ [n] := File data]> fs).
Proof.
  intros Hnd Hin. split.
  - intros p. destruct (decide (d ++ [n] = p)) as [<-|Hne].
    + rewrite lookup_node_insert_eq. naive_solver.
    + by rewrite lookup_node_insert_ne.
  - intros p Hp. apply lookup_node_insert_ne. set_solver.
Qed.

Lemma write_image_changes name data w :
  changes_only [pose_path name] (w_fs w) (w_fs (write_image name data w)).
Proof.
  unfold write_image, pose_path.
  destruct (lookup_node (w_fs w) (output_path ++ [pose_name name]))
    as [[|?]|] eqn:H;
    simpl; try apply changes_only_refl;
    (apply changes_only_insert; [by rewrite H|set_solver]).
Qed.

Lemma run_plan_changes name pl w :
  changes_only [pose_path name; landmarks_path name]
    (w_fs w) (w_fs (run_plan name pl w).2).
Proof.
  destruct pl as [|e|data [d|]]; simpl; try apply changes_only_refl.
  - unfold save_landmarks, mbind, M_bind, get_fs, put_fs, emit, raise. simpl.
    pose proof (write_image_changes name data w) as Hw.
    eapply changes_only_trans.
    { eapply changes_only_mono; [|exact Hw]. set_solver. }
    unfold landmarks_path.
    destruct (lookup_node (w_fs (write_image name data w))
                (output_path ++ [landmarks_name name]))
      as [[|?]|] eqn:H; simpl; try apply changes_only_refl;
      (apply changes_only_insert; [by rewrite H|set_solver]).
  - eapply changes_only_mono; [|apply write_image_changes]. set_solver.
Qed.

Lemma guarded_changes name w :
  changes_only [pose_path name; landmarks_path name]
    (w_fs w) (w_fs (after (guarded name) w)).
Proof.
  pose proof (run_plan_changes name (plan_of (w_fs w) name) w) as H.
  rewrite <- process_file_plan in H. unfold after.
  destruct (body name w) as [[[]|e] w'] eqn:Hb; simpl in H.
  - by rewrite (guarded_Ret _ _ _ Hb).
  - by rewrite (guarded_Raise _ _ _ _ Hb).
Qed.

(** *** The whole loop *)

Lemma loop_changes names w :
  changes_only (outputs_of names) (w_fs w) (w_fs (after (loop names) w)).
Proof.
  revert w. induction names as [|n names IH]; intros w.
  - apply changes_only_refl.
  - rewrite after_for_each_cons. eapply changes_only_trans.
    + eapply changes_only_mono; [|apply (guarded_changes n)].
      unfold outputs_of. simpl. set_solver.
    + eapply changes_only_mono; [|apply IH].
      unfold outputs_of. simpl. set_solver.
Qed.

Lemma pose_ne_landmarks n m : pose_name n ≠ landmarks_name m.
Proof. unfold pose_name, landmarks_name. intros H. discriminate H. Qed.

Lemma pose_path_ne_landmarks_path n m : pose_path n ≠ landmarks_path m.
Proof.
  unfold pose_path, landmarks_path. intros H%app_inj_tail.
  by destruct H as [_ H%pose_ne_landmarks].
Qed.

Lemma input_not_output names m :
  input_path ≠ output_path → input_path ++ [m] ∉ outputs_of names.
Proof.
  intros Hne Hin. unfold outputs_of in Hin.
  apply list_elem_of_bind in Hin as (n & Hin & _).
  unfold pose_path, landmarks_path in Hin.
  apply elem_of_cons in Hin as [H | Hin].
  { apply app_inj_tail in H. naive_solver. }
  apply elem_of_cons in Hin as [H | Hin].
  { apply app_inj_tail in H. naive_solver. }
  by apply elem_of_nil in Hin.
Qed.

(** With the output directory distinct from the input directory, the
    loop never changes what the collaborators decide for a file. *)
Lemma plan_of_stable names fs fs' m :
  input_path ≠ output_path → changes_only (outputs_of names) fs fs' →
  plan_of fs' m = plan_of fs m.
Proof.
  intros Hne [_ Hf]. unfold plan_of.
  by rewrite (Hf (input_path ++ [m])) by by apply input_not_output.
Qed.

Lemma is_dir_stable ps fs fs' p :
  changes_only ps fs fs' → is_dir fs' p = is_dir fs p.
Proof. intros [Hd _]. unfold is_dir. apply bool_decide_ext, Hd. Qed.

Lemma is_dir_false fs p : is_dir fs p = false ↔ lookup_node fs p ≠ Some Dir.
Proof. unfold is_dir. by rewrite bool_decide_eq_false. Qed.

Lemma is_dir_true fs p : is_dir fs p = true ↔ lookup_node fs p = Some Dir.
Proof. unfold is_dir. by rewrite bool_decide_eq_true. Qed.

Lemma written_texts_app tr1 tr2 :
  written_texts (tr1 ++ tr2) = written_texts tr1 ++ written_texts tr2.
Proof. apply omap_app. Qed.

Lemma written_images_app tr1 tr2 :
  written_images (tr1 ++ tr2) = written_images tr1 ++ written_images tr2.
Proof. apply omap_app. Qed.

(** The events one iteration appends. *)
Lemma guarded_trace n w :
  ∃ evs, w_trace (after (guarded n) w) = w_trace w ++ evs
    ∧ written_texts evs = option_list (text_written (w_fs w) n)
    ∧ written_images evs = option_list (image_written (w_fs w) n).
Proof.
  unfold after, process_file_guarded, try_except, text_written, image_written.
  rewrite process_file_plan.
  destruct (plan_of (w_fs w) n) as [|e|data [d|]]; simpl.
  - eexists. split; [done|]. done.
  - eexists. split; [done|]. done.
  - unfold save_landmarks, mbind, M_bind, get_fs, put_fs, emit, raise. simpl.
    rewrite <- (is_dir_stable _ _ _ (landmarks_path n)
                  (write_image_changes n data w)).
    unfold write_image, is_dir.
    destruct (lookup_node (w_fs w) (pose_path n)) as [[|?]|] eqn:Hp; simpl;
      repeat case_bool_decide; simplify_eq;
      destruct (lookup_node _ (landmarks_path n)) as [[|?]|] eqn:Hl; simpl;
      simplify_eq; rewrite <- ?app_assoc; eexists; (split; [done|]); done.
  - unfold write_image, is_dir.
    destruct (lookup_node (w_fs w) (pose_path n)) as [[|?]|] eqn:Hp; simpl;
      repeat case_bool_decide; simplify_eq;
      first [ by exists [] ; rewrite app_nil_r | by eexists ].
Qed.

Lemma loop_trace names w :
  input_path ≠ output_path →
  ∃ evs, w_trace (after (loop names) w) = w_trace w ++ evs
    ∧ written_texts evs = omap (text_written (w_fs w)) names
    ∧ written_images evs = omap (image_written (w_fs w)) names.
Proof.
  intros Hne. revert w. induction names as [|n names IH]; intros w.
  - exists []. by rewrite app_nil_r.
  - rewrite after_for_each_cons.
    destruct (guarded_trace n w) as (evs1 & Ht1 & Hx1 & Hi1).
    destruct (IH (after (guarded n) w)) as (evs2 & Ht2 & Hx2 & Hi2).
    pose proof (guarded_changes n w) as Hch.
    assert (changes_only (outputs_of [n]) (w_fs w) (w_fs (after (guarded n) w)))
      as Hch' by (eapply changes_only_mono; [|exact Hch]; unfold outputs_of;
                  simpl; set_solver).
    exists (evs1 ++ evs2). rewrite Ht2, Ht1, app_assoc.
    rewrite written_texts_app, written_images_app, Hx1, Hx2, Hi1, Hi2.
    split; [done|]. simpl. split.
    + rewrite (list_omap_ext (text_written (w_fs (after (guarded n) w)))
                 (text_written (w_fs w)) names names).
      * by destruct (text_written (w_fs w) n).
      * apply Forall2_same_length_lookup_2; [done|].
        intros i m m' Hm Hm'. simplify_eq. unfold text_written.
        by rewrite (plan_of_stable [n] (w_fs w)), (is_dir_stable _ _ _ _ Hch).
    + rewrite (list_omap_ext (image_written (w_fs (after (guarded n) w)))
                 (image_written (w_fs w)) names names).
      * by destruct (image_written (w_fs w) n).
      * apply Forall2_same_length_lookup_2; [done|].
        intros i m m' Hm Hm'. simplify_eq. unfold image_written.
        by rewrite (plan_of_stable [n] (w_fs w)), (is_dir_stable _ _ _ _ Hch).
Qed.

(** The loop starts no subprocess. *)
Lemma spawned_app tr1 tr2 : spawned (tr1 ++ tr2) = spawned tr1 ++ spawned tr2.
Proof. apply omap_app. Qed.

Lemma guarded_no_spawn n w :
  spawned (w_trace (after (guarded n) w)) = spawned (w_trace w).
Proof.
  unfold after, process_file_guarded, try_except.
  rewrite process_file_plan.
  destruct (plan_of (w_fs w) n) as [|e|data [d|]]; simpl.
  - by rewrite spawned_app, app_nil_r.
  - by rewrite spawned_app, app_nil_r.
  - unfold save_landmarks, mbind, M_bind, get_fs, put_fs, emit, raise. simpl.
    unfold write_image.
    destruct (lookup_node (w_fs w) (pose_path n)) as [[|?]|]; simpl;
      destruct (lookup_node _ (landmarks_path n)) as [[|?]|]; simpl;
      by rewrite ?spawned_app, ?app_nil_r.
  - unfold write_image.
    destruct (lookup_node (w_fs w) (pose_path n)) as [[|?]|]; simpl;
      by rewrite ?spawned_app, ?app_nil_r.
Qed.

Lemma loop_no_spawn names w :
  spawned (w_trace (after (loop names) w)) = spawned (w_trace w).
Proof.
  revert w. induction names as [|n names IH]; intros w; [done|].
  by rewrite after_for_each_cons, IH, guarded_no_spawn.
Qed.
End ProcessorFacts.

(** ** [process_directory] as a whole *)

Lemma mkdir_from_changes made todo fs fs1 :
  mkdir_from made todo fs = Ret fs1 →
  ∀ p, fs1 !! p = fs !! p
       ∨ (fs !! p = None ∧ fs1 !! p = Some Dir
          ∧ ∃ k, 0 < k ≤ length todo ∧ p = made ++ take k todo).
Proof.
  revert made fs. induction todo as [|c rest IH]; intros made fs H p; simpl in H.
  { left. by simplify_eq. }
  assert (∀ k, 0 < k ≤ length rest →
            ∃ k', 0 < k' ≤ length (c :: rest)
                  ∧ (made ++ [c]) ++ take k rest = made ++ take k' (c :: rest))
    as Hshift.
  { intros k Hk. exists (S k). simpl. rewrite <- app_assoc. split; [lia|done]. }
  destruct (fs !! (made ++ [c])) as [[|data]|] eqn:Hc.
  - destruct (IH _ _ H p) as [Hp | (Hp1 & Hp2 & k & Hk & ->)]; [by left|].
    right. split_and!; try done. by apply Hshift.
  - by destruct rest.
  - destruct (IH _ _ H p) as [Hp | (Hp1 & Hp2 & k & Hk & ->)].
    + destruct (decide (made ++ [c] = p)) as [<-|Hne].
      * right. rewrite Hp, lookup_insert_eq. split_and!; try done.
        exists 1. simpl. split; [lia|]. by rewrite take_0.
      * left. by rewrite Hp, lookup_insert_ne.
    + right. split_and!; [|done|by apply Hshift].
      destruct (decide (made ++ [c] = (made ++ [c]) ++ take k rest)) as [Heq|Hne].
      * rewrite <- Heq in Hp1. by rewrite lookup_insert_eq in Hp1.
      * by rewrite lookup_insert_ne in Hp1.
Qed.

Lemma mkdir_from_extends made todo fs fs1 :
  mkdir_from made todo fs = Ret fs1 →
  ∀ p, fs1 !! p = fs !! p ∨ (fs !! p = None ∧ fs1 !! p = Some Dir).
Proof.
  intros H p. destruct (mkdir_from_changes _ _ _ _ H p) as [?|(? & ? & _)]; auto.
Qed.

Lemma mkdir_changes_prefix p fs fs1 q :
  mkdir_from [] p fs = Ret fs1 →
  fs1 !! q = fs !! q
  ∨ (fs !! q = None ∧ fs1 !! q = Some Dir ∧ q ≠ [] ∧ q `prefix_of` p).
Proof.
  intros H. destruct (mkdir_from_changes _ _ _ _ H q) as [?|(? & ? & k & Hk & ->)];
    [by left|right].
  split_and!; try done.
  - simpl. destruct p; simpl in *; [lia|]. by destruct k; [lia|].
  - simpl. exists (drop k p). by rewrite take_drop.
Qed.

Lemma mkdir_from_is_dir made todo fs fs1 :
  mkdir_from made todo fs = Ret fs1 → todo ≠ [] →
  fs1 !! (made ++ todo) = Some Dir.
Proof.
  revert made fs. induction todo as [|c rest IH]; intros made fs H Hne; [done|].
  simpl in H. destruct rest as [|c' rest].
  - simpl in H.
    destruct (fs !! (made ++ [c])) as [[|data]|] eqn:Hc; simplify_eq; [done|].
    by rewrite lookup_insert_eq.
  - rewrite (cons_middle c), app_assoc.
    destruct (fs !! (made ++ [c])) as [[|data]|] eqn:Hc; simplify_eq;
      by eapply IH.
Qed.

Section ProcessDirectory.
Variable X : External.
Variables input_path output_path : path.

Local Abbreviation warning_line := (warning_line input_path).

Lemma process_directory_mkdir_fails w e :
  mkdir_from [] output_path (w_fs w) = Raise e →
  process_directory X input_path output_path w = (Raise e, w).
Proof.
  intros H. unfold process_directory, mkdir, mbind, M_bind, get_fs, lift.
  by rewrite H.
Qed.

Lemma process_directory_empty w fs1 :
  mkdir_from [] output_path (w_fs w) = Ret fs1 →
  image_files fs1 input_path = [] →
  process_directory X input_path output_path w
  = (Ret (), World fs1 (w_trace w ++ [EPrint warning_line])).
Proof.
  intros H Hnil. unfold process_directory, mkdir, mbind, M_bind, get_fs, lift.
  rewrite H. simpl. by rewrite Hnil.
Qed.

Lemma process_directory_loop w fs1 :
  mkdir_from [] output_path (w_fs w) = Ret fs1 →
  image_files fs1 input_path ≠ [] →
  process_directory X input_path output_path w
  = for_each (image_files fs1 input_path)
      (process_file_guarded X input_path output_path)
      (World fs1
         (w_trace w ++ [EPrint (start_line (length (image_files fs1 input_path)))])).
Proof.
  intros H Hne. unfold process_directory, mkdir, mbind, M_bind, get_fs, lift.
  rewrite H. simpl. by destruct (image_files fs1 input_path).
Qed.

Lemma process_directory_no_spawn w :
  spawned (w_trace (after (process_directory X input_path output_path) w))
  = spawned (w_trace w).
Proof.
  unfold after.
  destruct (mkdir_from [] output_path (w_fs w)) as [fs1|e] eqn:Hmk.
  - destruct (decide (image_files fs1 input_path = [])) as [Hnil|Hne].
    + rewrite (process_directory_empty _ _ Hmk Hnil). simpl.
      by rewrite spawned_app, app_nil_r.
    + rewrite (process_directory_loop _ _ Hmk Hne).
      pose proof (loop_no_spawn X input_path output_path) as Hl.
      unfold after in Hl. rewrite Hl. simpl. by rewrite spawned_app, app_nil_r.
  - by rewrite (process_directory_mkdir_fails _ _ Hmk).
Qed.

Lemma process_directory_total w :
  ∃ r, process_directory X input_path output_path w
       = (r, after (process_directory X input_path output_path) w).
Proof. unfold after. destruct (process_directory _ _ _ w). by eexists. Qed.
End ProcessDirectory.


(** ** The claims on the Batch Image Processor *)

Example demo_runs :
  image_files fs_same_stem data_dir = ["a.jpg"; "a.png"]
  ∧ image_files fs_no_images data_dir = []
  ∧ detected demo data_dir fs_same_stem "a.jpg" = None
  ∧ detected demo data_dir fs_same_stem "a.png"
    = Some (LandmarksDict [Landmark 0 (Ffinite false 112 (-8)) half half half] 6 1).
Proof. vm_compute. repeat split. Qed.

Section ProcessorClaims.
Variable X : External.
Variables input_path output_path : path.

Local Abbreviation body := (process_file X input_path output_path).
Local Abbreviation guarded := (process_file_guarded X input_path output_path).
Local Abbreviation pose_path := (pose_path output_path).
Local Abbreviation landmarks_path := (landmarks_path output_path).



(** C3 (as amended).  A decodable image on which the estimator finds no
    pose: the pixel array handed to [cv2.imwrite] under the [pose_] name is
    the very array decoded from the input, nothing drawn on it, so the file
    written is what the encoder makes of those pixels; it decodes back to
    the pixels of the input whenever the codec loses nothing on this image.
    Nothing else is written or printed; in particular no landmark file is
    created. *)
Theorem no_pose_copies_input n w data img results encoded :
  w_fs w !! (input_path ++ [n]) = Some (File data) →
  imread_data X data = Ret (Some img) →
  pose_process X (cvtColor_BGR2RGB img) = Ret results →
  pose_landmarks results = None →
  imencode X ("pose_" +:+ n) img = Ret encoded →
  w_fs w !! (output_path ++ ["pose_" +:+ n]) ≠ Some Dir →
  let w' := after (process_file X input_path output_path n) w in
  result (process_file X input_path output_path n) w = Ret ()
  ∧ w_fs w' = <[output_path ++ ["pose_" +:+ n] := File encoded]> (w_fs w)
  ∧ w_trace w' = w_trace w ++ [EWriteImage (output_path ++ ["pose_" +:+ n])]
  ∧ w_fs w' !! (output_path ++ [landmarks_name n])
    = w_fs w !! (output_path ++ [landmarks_name n])
  ∧ (imread_data X encoded = Ret (Some img) →
     ∃ out, w_fs w' !! (output_path ++ ["pose_" +:+ n]) = Some (File out)
            ∧ imread_data X out = Ret (Some img)).
Proof.
  intros Hin Hread Hpose Hnone Henc Hnd w'.
  assert (body n w
          = (Ret (), World (<[pose_path n := File encoded]> (w_fs w))
                       (w_trace w ++ [EWriteImage (pose_path n)]))) as Hb.
  { rewrite process_file_plan. unfold plan_of, process_image.
    rewrite lookup_node_child, Hin, Hread. simpl.
    rewrite Hpose. simpl. rewrite Hnone. simpl.
    unfold pose_name. rewrite Henc. simpl. unfold write_image.
    unfold pose_path, pose_name. rewrite lookup_node_child.
    by destruct (w_fs w !! (output_path ++ ["pose_" +:+ n])) as [[|?]|]. }
  unfold w', after, result. rewrite Hb. simpl. split_and!; try done.
  - apply lookup_insert_ne. apply pose_path_ne_landmarks_path.
  - intros Hdec. exists encoded. split; [|done].
    unfold pose_path, pose_name. by rewrite lookup_insert_eq.
Qed.

End ProcessorClaims.

(** C8.  The discovery selects, each once, exactly the entries of the input
    directory whose name ends in one of the literal lower-case extensions;
    names with an upper-case extension are not selected. *)
Theorem discovery_by_extension fs d :
  (∀ n, n ∈ image_files fs d
        ↔ (is_dir fs d = true ∧ is_Some (fs !! (d ++ [n])))
          ∧ ((∃ s, n = s +:+ ".jpg") ∨ (∃ s, n = s +:+ ".jpeg")
             ∨ (∃ s, n = s +:+ ".png") ∨ (∃ s, n = s +:+ ".bmp")))
  ∧ NoDup (image_files fs d)
  ∧ (∀ s, (s +:+ ".JPG" ∉ image_files fs d) ∧ (s +:+ ".JPEG" ∉ image_files fs d)
          ∧ (s +:+ ".PNG" ∉ image_files fs d) ∧ (s +:+ ".BMP" ∉ image_files fs d)).
Proof.
  split_and!.
  - intros n. by rewrite elem_of_image_files, elem_of_iterdir.
  - apply NoDup_image_files.
  - intros s. destruct (upper_case_not_recognized s) as (H1 & H2 & H3 & H4).
    rewrite !elem_of_image_files. naive_solver.
Qed.


(** An image without a pose whose rendered file is no copy of it: with a
    lossy encoder the file written under the [pose_] name has other bytes
    than the input and decodes to other pixels. *)
Lemma lossy_copy_differs :
  ¬ copies_input lossy data_dir out_dir "a.jpg" (World fs_same_stem []).
Proof.
  intros H.
  destruct (H "wall" (demo_image "wall") (PoseResults None None))
    as (out & Hout & Hid); try reflexivity.
  assert (w_fs (after (process_file lossy data_dir out_dir "a.jpg")
                  (World fs_same_stem []))
            !! pose_path out_dir "a.jpg"
          = Some (File (demo_data (coarse (demo_image "wall"))))) as Hfile
    by reflexivity.
  rewrite Hfile in Hout. injection Hout as <-.
  destruct Hid as [Hbytes | Hpixels].
  - vm_compute in Hbytes. discriminate Hbytes.
  - vm_compute in Hpixels. discriminate Hpixels.
Qed.


Lemma no_pose_copies_input_witness :
  w_fs (after (process_file demo data_dir out_dir "a.jpg") (World fs_same_stem []))
  = <[out_dir ++ ["pose_a.jpg"] := File "wall"]> fs_same_stem.
Proof.
  refine (proj1 (proj2
    (no_pose_copies_input demo data_dir out_dir "a.jpg" (World fs_same_stem [])
       "wall" (demo_image "wall") (PoseResults None None) "wall" _ _ _ _ _ _))).
  - vm_compute. reflexivity.
  - vm_compute. reflexivity.
  - vm_compute. reflexivity.
  - reflexivity.
  - vm_compute. reflexivity.
  - vm_compute. discriminate.
Defined.


(** ** The landmark files of a whole run *)

Lemma omap_length_le {A B} (f : A → option B) (l : list A) :
  length (omap f l) ≤ length l.
Proof.
  induction l as [|a l IH]; csimpl; [lia|]. destruct (f a); csimpl; lia.
Qed.

Section ProcessorLoopClaims.
Variable X : External.
Variables input_path output_path : path.
Hypothesis distinct_dirs : input_path ≠ output_path.

Local Abbreviation body := (process_file X input_path output_path).
Local Abbreviation guarded := (process_file_guarded X input_path output_path).
Local Abbreviation loop names := (for_each names guarded).
Local Abbreviation plan_of := (plan_of X input_path).
Local Abbreviation pose_path := (pose_path output_path).
Local Abbreviation landmarks_path := (landmarks_path output_path).
Local Abbreviation text_written := (text_written X input_path output_path).
Local Abbreviation image_written := (image_written X input_path output_path).
Local Abbreviation detected := (detected X input_path).

(** A detected pose whose processing raises nothing is a plan that saves
    the landmarks, and conversely. *)
Lemma saves_iff fs tr n d :
  (detected fs n = Some d ∧ result (body n) (World fs tr) = Ret ())
  ↔ (∃ data, plan_of fs n = PImage data (Some d))
    ∧ is_dir fs (landmarks_path n) = false.
Proof.
  unfold result. rewrite process_file_plan. simpl.
  unfold detected, plan_of.
  destruct (lookup_node fs (input_path ++ [n])) as [[|data0]|];
    [naive_solver..| |naive_solver].
  destruct (imread_data X data0) as [[img|]|e]; [|naive_solver..].
  destruct (process_image X img) as [[ri [d'|]]|e]; [| |naive_solver].
  2:{ destruct (imencode X (pose_name n) ri); naive_solver. }
  destruct (imencode X (pose_name n) ri) as [data|e]; [|naive_solver]. simpl.
  unfold save_landmarks, mbind, M_bind, get_fs, put_fs, emit, raise. simpl.
  pose proof (is_dir_stable _ _ _ (landmarks_path n)
                (write_image_changes output_path n data (World fs tr))) as Hs.
  simpl in Hs. rewrite <- Hs. unfold is_dir.
  destruct (lookup_node _ (landmarks_path n)) as [[|?]|] eqn:Hl;
    case_bool_decide; naive_solver.
Qed.

Lemma text_written_iff fs n p :
  text_written fs n = Some p
  ↔ p = landmarks_path n
    ∧ is_Some (detected fs n) ∧ result (body n) (World fs []) = Ret ().
Proof.
  unfold text_written. split.
  - destruct (plan_of fs n) as [| |data [d|]] eqn:Hp; try done.
    destruct (is_dir fs (landmarks_path n)) eqn:Hd; [done|].
    intros [= <-]. split; [done|].
    destruct (proj2 (saves_iff fs [] n d)) as [Hdet Hres]; eauto.
  - intros (-> & [d Hdet] & Hres).
    destruct (proj1 (saves_iff fs [] n d)) as [[data Hp] Hd]; [done|].
    by rewrite Hp, Hd.
Qed.

(** C4 (as amended).  A run over [N] recognized images writes at most [N]
    rendered images and at most [N] landmark files, each under the name
    derived from one of the images; and a landmark file is written exactly
    when, for some recognized image with that landmark file name, a pose was
    detected and the processing of the image raised no exception. *)
Theorem landmark_files_of_a_run w fs1 :
  mkdir_from [] output_path (w_fs w) = Ret fs1 →
  let files := image_files fs1 input_path in
  ∃ evs,
    w_trace (after (process_directory X input_path output_path) w)
    = w_trace w ++ evs
    ∧ length (written_images evs) ≤ length files
    ∧ length (written_texts evs) ≤ length files
    ∧ (∀ p, p ∈ written_images evs →
            ∃ n, n ∈ files ∧ p = output_path ++ [pose_name n])
    ∧ (∀ p, p ∈ written_texts evs
            ↔ ∃ n, n ∈ files ∧ p = output_path ++ [landmarks_name n]
                   ∧ is_Some (detected fs1 n)
                   ∧ result (process_file X input_path output_path n)
                       (World fs1 []) = Ret ()).
Proof.
  intros Hmk files. unfold after.
  destruct (decide (files = [])) as [Hnil|Hne].
  - rewrite (process_directory_empty _ _ _ _ _ Hmk Hnil). simpl.
    eexists. split; [done|]. simpl. rewrite Hnil.
    split_and!; try done; [set_solver|]. intros p. split; [set_solver|].
    intros (n & Hn & _). by apply elem_of_nil in Hn.
  - rewrite (process_directory_loop _ _ _ _ _ Hmk Hne).
    fold files. set (w0 := World fs1 _).
    destruct (loop_trace X input_path output_path files w0 distinct_dirs)
      as (evs & Ht & Hx & Hi).
    unfold after in Ht. rewrite Ht. simpl. rewrite <- app_assoc.
    eexists. split; [done|].
    rewrite written_images_app, written_texts_app, Hx, Hi. simpl. split_and!.
    + apply omap_length_le.
    + apply omap_length_le.
    + intros p (n & Hn & Hw)%list_elem_of_omap. exists n. split; [done|].
      unfold image_written in Hw.
      destruct (plan_of fs1 n); try done. by case_match; simplify_eq.
    + intros p. rewrite list_elem_of_omap.
      setoid_rewrite text_written_iff. naive_solver.
Qed.




End ProcessorLoopClaims.

(** Two images of one stem, a pose on the second only: the landmark file of
    the first exists although no pose was detected on it. *)
Lemma landmarks_without_detection :
  ¬ landmarks_iff_detected demo data_dir out_dir (World fs_same_stem []).
Proof.
  unfold landmarks_iff_detected. cbv zeta. intros H.
  assert ("a.jpg" ∈ image_files (w_fs (World fs_same_stem [])) data_dir) as Hin.
  { replace (image_files _ data_dir) with ["a.jpg"; "a.png"]
      by (vm_compute; reflexivity).
    apply list_elem_of_here. }
  apply H in Hin. destruct Hin as [Hex _].
  destruct Hex as [d Hd]; [|vm_compute in Hd; discriminate Hd].
  vm_compute. by eexists.
Qed.

Lemma landmark_files_of_a_run_witness :
  ∃ evs,
    w_trace (after (process_directory demo data_dir out_dir)
               (World fs_same_stem [])) = evs
    ∧ length (written_texts evs) ≤ 2.
Proof.
  destruct (landmark_files_of_a_run demo data_dir out_dir
              ltac:(vm_compute; discriminate)
              (World fs_same_stem []) fs_same_stem
              ltac:(vm_compute; reflexivity))
    as (evs & Ht & _ & Hx & _).
  exists evs. split; [exact Ht|exact Hx].
Defined.


(** The run on the two images of one stem, end to end. *)
Example two_poses_one_file :
  let w' := after (process_directory demo data_dir out_dir) (World fs_two_poses []) in
  written_texts (w_trace w')
  = [out_dir ++ ["landmarks_a.txt"]; out_dir ++ ["landmarks_a.txt"]]
  ∧ w_fs w' !! (out_dir ++ ["landmarks_a.txt"])
    = Some (File ("Image size: {'width': 6, 'height': 1}" +:+ LF +:+ LF
                  +:+ "Landmarks:" +:+ LF
                  +:+ "ID: 0" +:+ LF
                  +:+ "Position: x=0.3984, y=0.5000, z=0.5000" +:+ LF
                  +:+ "Visibility: 0.5000" +:+ LF +:+ LF)).
Proof. vm_compute. split; reflexivity. Qed.

(** ** The Batch Invoker *)

Lemma candidate_last cwd c :
  c ∈ possible_paths →
  ∃ l x, resolve cwd c = l ++ [x] ∧ x ∉ output_dir.
Proof.
  unfold possible_paths. intros Hc.
  repeat (apply elem_of_cons in Hc as [-> | Hc]); [ | | |by apply elem_of_nil in Hc].
  - exists (cwd ++ ["build"; "examples"; "openpose"]), "openpose.bin".
    split; [by rewrite <- app_assoc|]. rewrite list_elem_of_In. unfold output_dir, input_dir. simpl.
    intuition discriminate.
  - exists ["usr"; "local"; "bin"], "openpose.bin".
    split; [done|]. rewrite list_elem_of_In. unfold output_dir, input_dir. simpl.
    intuition discriminate.
  - exists (cwd ++ ["C:"; "Program Files"; "OpenPose"; "bin"]), "OpenPoseDemo.exe".
    split; [by rewrite <- app_assoc|]. rewrite list_elem_of_In. unfold output_dir, input_dir. simpl.
    intuition discriminate.
Qed.

(** Ensuring the output directory neither creates nor hides a candidate. *)
Lemma candidate_exists_stable cwd c fs fs1 :
  c ∈ possible_paths →
  mkdir_from [] output_dir fs = Ret fs1 →
  exists_ fs1 (resolve cwd c) = exists_ fs (resolve cwd c).
Proof.
  intros Hc Hmk. destruct (candidate_last cwd c Hc) as (l & x & -> & Hx).
  unfold exists_. rewrite !lookup_node_child.
  destruct (mkdir_changes_prefix _ _ _ (l ++ [x]) Hmk)
    as [-> | (_ & _ & _ & [k Hk])]; [done|].
  exfalso. apply Hx. rewrite Hk. set_solver.
Qed.

Lemma find_ext_elem_of {A} (f g : A → bool) (l : list A) :
  (∀ x, x ∈ l → f x = g x) → List.find f l = List.find g l.
Proof.
  induction l as [|a l IH]; intros Hfg; [done|]. simpl.
  rewrite (Hfg a) by set_solver. rewrite IH; [done|].
  intros x Hx. apply Hfg. set_solver.
Qed.

Lemma find_candidate_stable cwd fs fs1 :
  mkdir_from [] output_dir fs = Ret fs1 →
  List.find (λ p, exists_ fs1 (resolve cwd p)) possible_paths
  = List.find (λ p, exists_ fs (resolve cwd p)) possible_paths.
Proof.
  intros Hmk. apply find_ext_elem_of. intros c Hc.
  by apply candidate_exists_stable.
Qed.

Lemma find_none_iff cwd fs :
  List.find (λ p, exists_ fs (resolve cwd p)) possible_paths = None
  ↔ ∀ p, p ∈ possible_paths → exists_ fs (resolve cwd p) = false.
Proof.
  split.
  - intros H p Hp. apply list_elem_of_In in Hp.
    by apply (List.find_none _ _ H).
  - intros H. rewrite (find_ext_elem_of _ (λ _, false)) by done.
    by unfold possible_paths.
Qed.

Section Invoker.
Variable H : Host.
Variable cwd : path.

Lemma invoker_start w fs1 rest :
  exists_ (w_fs w) input_dir = true →
  mkdir_from [] output_dir (w_fs w) = Ret fs1 →
  top_level
    (fs ← get_fs;
     if exists_ fs input_dir then mret ()
     else raise (FileNotFoundError ("輸入資料夾不存在: " +:+ str_path input_dir)))
    (top_level (mkdir output_dir) rest) w
  = rest (World fs1 (w_trace w)).
Proof.
  intros Hin Hmk.
  unfold top_level, mkdir, mbind, M_bind, get_fs, lift, put_fs, mret, M_ret.
  cbv beta iota. rewrite Hin. cbv beta iota. by rewrite Hmk.
Qed.

(** C2 (as amended).  When the input directory exists, the output
    directory can be ensured and no candidate executable exists, the
    invoker prints exactly the six lines of guidance and exits with status
    1 without starting a subprocess.  No file is written; the only change to
    the filesystem is the creation of the output directory (and of missing
    directories above it), made before the search. *)
Theorem missing_executable w fs1 :
  exists_ (w_fs w) input_dir = true →
  mkdir_from [] output_dir (w_fs w) = Ret fs1 →
  (∀ p, p ∈ possible_paths → exists_ (w_fs w) (resolve cwd p) = false) →
  invoker H cwd w
  = (SystemExit 1, World fs1 (w_trace w ++ (EPrint <$> guidance)))
  ∧ exit_status (SystemExit 1) = 1%Z
  ∧ spawned (w_trace w ++ (EPrint <$> guidance)) = spawned (w_trace w)
  ∧ fs1 !! output_dir = Some Dir
  ∧ (∀ p, fs1 !! p = w_fs w !! p
          ∨ (w_fs w !! p = None ∧ fs1 !! p = Some Dir ∧ p `prefix_of` output_dir)).
Proof.
  intros Hin Hmk Hnone. split_and!.
  - unfold invoker. rewrite (invoker_start _ _ _ Hin Hmk). simpl w_fs.
    rewrite (find_candidate_stable _ _ _ Hmk).
    rewrite (proj2 (find_none_iff cwd (w_fs w)) Hnone).
    unfold guidance, print_all, print, emit, mbind, M_bind. simpl.
    by rewrite <- !app_assoc.
  - done.
  - by rewrite spawned_app, app_nil_r.
  - by apply (mkdir_from_is_dir [] output_dir (w_fs w)).
  - intros p. destruct (mkdir_changes_prefix _ _ _ p Hmk) as [?|(?&?&?&?)]; auto.
Qed.

(** C6.  When the located executable runs and exits with a non-zero
    status, the [CalledProcessError] is caught: the invoker prints the
    command-failure report, with the captured stderr in its second line, no
    exception escapes, and the script ends with status 0. *)
Theorem subprocess_failure_reported w fs1 openpose_binary returncode out err fs2 :
  exists_ (w_fs w) input_dir = true →
  mkdir_from [] output_dir (w_fs w) = Ret fs1 →
  List.find (λ p, exists_ (w_fs w) (resolve cwd p)) possible_paths
  = Some openpose_binary →
  run_command H (command_for openpose_binary) fs1
  = Exited returncode out err fs2 →
  returncode ≠ 0%Z →
  invoker H cwd w
  = (Completed,
     World fs2
       (w_trace w ++ [
          EPrint ("使用的 OpenPose 路徑: " +:+ str_pypath openpose_binary);
          EPrint ("執行命令: " +:+ join " " (command_for openpose_binary));
          ESpawn (command_for openpose_binary);
          EPrint (LF +:+ "執行 OpenPose 時發生錯誤: "
                  +:+ str_called_process_error H returncode
                        (command_for openpose_binary));
          EPrint ("錯誤輸出: " +:+ err);
          EPrint (LF +:+ "請檢查：");
          EPrint "1. OpenPose 是否正確安裝";
          EPrint "2. 執行檔路徑是否正確";
          EPrint "3. 是否有足夠的權限執行"
        ]))
  ∧ exit_status Completed = 0%Z.
Proof.
  intros Hin Hmk Hfind Hrun Hrc. split; [|done].
  unfold invoker. rewrite (invoker_start _ _ _ Hin Hmk). simpl w_fs.
  rewrite (find_candidate_stable _ _ _ Hmk), Hfind.
  unfold top_level, try_except, invoke, subprocess_run_checked.
  unfold print, emit, mbind, M_bind, get_fs, put_fs, raise. simpl.
  rewrite Hrun. simpl. rewrite bool_decide_eq_false_2 by done. simpl.
  by rewrite <- !app_assoc.
Qed.
End Invoker.

(** With the input directory missing the invoker stops at its first check:
    the traceback of [FileNotFoundError], and no guidance. *)
Lemma no_guidance_without_input :
  ¬ fails_fast failing_host [] (World fs_empty []).
Proof.
  unfold fails_fast. intros Hf.
  assert (invoker failing_host [] (World fs_empty [])
          = (Traceback (FileNotFoundError
                          ("輸入資料夾不存在: " +:+ str_path input_dir)),
             World fs_empty [])) as Hrun by (vm_compute; reflexivity).
  rewrite Hrun in Hf.
  destruct Hf as (_ & [before Hout] & _).
  { intros p Hp. unfold possible_paths in Hp.
    repeat (apply elem_of_cons in Hp as [-> | Hp]);
      [ | | |by apply elem_of_nil in Hp]; vm_compute; reflexivity. }
  simpl in Hout. by destruct before.
Qed.

Lemma missing_executable_witness :
  invoker failing_host [] (World fs_input_only [])
  = (SystemExit 1,
     World (<[output_dir := Dir]> fs_input_only) (EPrint <$> guidance)).
Proof.
  refine (proj1
    (missing_executable failing_host [] (World fs_input_only [])
       (<[output_dir := Dir]> fs_input_only) _ _ _)).
  - vm_compute. reflexivity.
  - reflexivity.
  - intros p Hp. unfold possible_paths in Hp.
    repeat (apply elem_of_cons in Hp as [-> | Hp]);
      [ | | |by apply elem_of_nil in Hp]; vm_compute; reflexivity.
Defined.

Lemma subprocess_failure_reported_witness :
  exit_status (invoker failing_host [] (World fs_openpose [])).1 = 0%Z.
Proof.
  refine (eq_trans (f_equal (λ r, exit_status r.1) (proj1
    (subprocess_failure_reported failing_host [] (World fs_openpose [])
       (<[output_dir := Dir]> fs_openpose)
       (Abs ["usr"; "local"; "bin"; "openpose.bin"]) 2 ""
       "Error: no images found" (<[output_dir := Dir]> fs_openpose)
       _ _ _ _ _))) _).
  - vm_compute. reflexivity.
  - reflexivity.
  - vm_compute. reflexivity.
  - reflexivity.
  - discriminate.
  - reflexivity.
Defined.

Example failing_run_output :
  stdout (w_trace (invoker failing_host [] (World fs_openpose [])).2)
  = [ "使用的 OpenPose 路徑: /usr/local/bin/openpose.bin";
      "執行命令: /usr/local/bin/openpose.bin --image_dir /Users/joyfulsucessful/Desktop/AIGC/AIGC_test/woman-posing_512_8fps_8s --write_images /Users/joyfulsucessful/Desktop/AIGC/AIGC_test/woman-posing_512_8fps_8s/output --display 0 --render_pose 1";
      LF +:+ "執行 OpenPose 時發生錯誤: Command '['/usr/local/bin/openpose.bin', '--image_dir', '/Users/joyfulsucessful/Desktop/AIGC/AIGC_test/woman-posing_512_8fps_8s', '--write_images', '/Users/joyfulsucessful/Desktop/AIGC/AIGC_test/woman-posing_512_8fps_8s/output', '--display', '0', '--render_pose', '1']' returned non-zero exit status 2.";
      "錯誤輸出: Error: no images found";
      LF +:+ "請檢查：";
      "1. OpenPose 是否正確安裝";
      "2. 執行檔路徑是否正確";
      "3. 是否有足夠的權限執行" ].
Proof. vm_compute. reflexivity. Qed.

(** ** The processor as a script *)

Section Script.
Variable H : Host.
Variable X : External.
Variable model_loads : outcome unit.

(** What [main] does for one required package: the import is attempted,
    and a failing import is followed by the [pip install] subprocess. *)
Lemma ensure_package_imports package w :
  can_import H package = true →
  ensure_package H package w = (Ret (), World (w_fs w) (w_trace w ++ [EImport package])).
Proof.
  intros Hc. unfold ensure_package, try_except, import, emit, mbind, M_bind.
  simpl. by rewrite Hc.
Qed.

Lemma ensure_package_installs package w :
  can_import H package = false →
  ∃ r fs',
    ensure_package H package w
    = (r, World fs'
            (w_trace w ++ [
               EImport package;
               EPrint ("安裝 " +:+ package +:+ "...");
               ESpawn [sys_executable H; "-m"; "pip"; "install"; package]
             ])).
Proof.
  intros Hc. unfold ensure_package, try_except, import, emit, mbind, M_bind.
  simpl. rewrite Hc. simpl.
  unfold install_package, subprocess_run_checked, print, emit, mbind, M_bind,
    get_fs, put_fs, raise. simpl.
  destruct (run_command H _ _) as [rc out err fs'|e]; simpl;
    [case_bool_decide|]; simpl; rewrite <- !app_assoc; by eexists _, _.
Qed.

Lemma main_no_spawn_when_imported w :
  can_import H "mediapipe" = true →
  can_import H "tqdm" = true →
  ∃ w', main H X model_loads w = (Ret (), w')
        ∧ spawned (w_trace w') = spawned (w_trace w).
Proof.
  intros Hm Ht. unfold main, try_except, required_packages.
  change (for_each ["mediapipe"; "tqdm"] (ensure_package H))
    with (ensure_package H "mediapipe";; ensure_package H "tqdm";; mret ()).
  unfold mbind, M_bind.
  rewrite (ensure_package_imports _ _ Hm).
  rewrite (ensure_package_imports _ _ Ht).
  unfold mret, M_ret, construct, print, emit, lift.
  unfold mbind, M_bind. cbv beta iota. simpl w_fs. simpl w_trace.
  destruct model_loads as [[]|e].
  2:{ eexists. split; [done|]. simpl. by rewrite !spawned_app, !app_nil_r. }
  set (w1 := World _ _).
  assert (spawned (w_trace w1) = spawned (w_trace w)) as Hw1.
  { unfold w1. simpl. by rewrite !spawned_app, !app_nil_r. }
  destruct (process_directory_total X main_input_dir main_output_dir w1)
    as [r Hr].
  pose proof (process_directory_no_spawn X main_input_dir main_output_dir w1)
    as Hs.
  rewrite Hr. destruct r as [[]|e]; eexists; (split; [done|]); simpl;
    by rewrite !spawned_app, Hs, Hw1, !app_nil_r.
Qed.

(** Whatever the host has installed, a run of the script starts no
    subprocess: a package that does not import stops the module at its
    top-level [import], before [main]; and once [main] runs, its own import
    checks succeed. *)
Theorem script_never_installs w :
  spawned (w_trace (processor_script H X model_loads w).2)
  = spawned (w_trace w).
Proof.
  unfold processor_script, top_level, import, emit, mbind, M_bind. simpl.
  destruct (can_import H "cv2") eqn:H1; simpl;
    [|by rewrite spawned_app, app_nil_r].
  destruct (can_import H "mediapipe") eqn:H2; simpl;
    [|by rewrite !spawned_app, !app_nil_r].
  destruct (can_import H "numpy") eqn:H3; simpl;
    [|by rewrite !spawned_app, !app_nil_r].
  destruct (can_import H "tqdm") eqn:H4; simpl;
    [|by rewrite !spawned_app, !app_nil_r].
  set (w1 := World _ _).
  destruct (main_no_spawn_when_imported w1 H2 H4) as (w' & -> & Hs).
  simpl. rewrite Hs. unfold w1. simpl. by rewrite !spawned_app, !app_nil_r.
Qed.
End Script.

(** Entered with both packages missing, [main] would install them, in
    order, before the estimator is constructed. *)
Example main_alone_installs :
  w_trace (after (main bare_host demo (Ret ())) (World fs_empty []))
  = [ EImport "mediapipe"; EPrint "安裝 mediapipe...";
      ESpawn ["/usr/bin/python3"; "-m"; "pip"; "install"; "mediapipe"];
      EImport "tqdm"; EPrint "安裝 tqdm...";
      ESpawn ["/usr/bin/python3"; "-m"; "pip"; "install"; "tqdm"];
      EPrint "初始化姿態估計器...";
      EConstruct;
      EPrint ("警告: 在 /Users/joyfulsucessful/Desktop/AIGC/AIGC_test/woman-posing_512_8fps_8s 中未找到圖片文件");
      EPrint (LF +:+ "處理完成！結果已保存到: /Users/joyfulsucessful/Desktop/AIGC/AIGC_test/woman-posing_512_8fps_8s/output2") ].
Proof. vm_compute. reflexivity. Qed.

(** C10.  On a host without MediaPipe the script never reaches [main]:
    the top-level [import mediapipe] raises, the run ends with a traceback
    (status 1), and no [pip] subprocess has been started. *)
Theorem script_stops_at_import :
  processor_script bare_host demo (Ret ()) (World fs_empty [])
  = (Traceback (ImportError "No module named 'mediapipe'"),
     World fs_empty [EImport "cv2"; EImport "mediapipe"])
  ∧ exit_status (processor_script bare_host demo (Ret ()) (World fs_empty [])).1
    = 1%Z
  ∧ spawned (w_trace (processor_script bare_host demo (Ret ())
                        (World fs_empty [])).2) = [].
Proof. vm_compute. repeat split. Qed.

(** ** The landmark text *)

Example two_landmarks_text :
  landmarks_text two_landmarks
  = "Image size: {'width': 640, 'height': 480}" +:+ LF +:+ LF
    +:+ "Landmarks:" +:+ LF
    +:+ "ID: 0" +:+ LF
    +:+ "Position: x=0.1562, y=0.5000, z=-0.0938" +:+ LF
    +:+ "Visibility: 0.5000" +:+ LF +:+ LF
    +:+ "ID: 1" +:+ LF
    +:+ "Position: x=0.3984, y=0.5000, z=-0.0000" +:+ LF
    +:+ "Visibility: 1.0000" +:+ LF +:+ LF
  ∧ parse_landmarks_text (landmarks_text two_landmarks)
    = rounded_landmarks two_landmarks
  ∧ parse_landmarks_text (landmarks_text nan_landmarks) = None.
Proof. vm_compute. repeat split. Qed.

(** *** Strings *)

Lemma string_app_cons c s t : String c s +:+ t = String c (s +:+ t).
Proof. done. Qed.

Lemma string_app_nil_l t : "" +:+ t = t.
Proof. done. Qed.

Lemma string_app_assoc s t u : (s +:+ t) +:+ u = s +:+ (t +:+ u).
Proof.
  induction s as [|c s IH]; [done|]. by rewrite !string_app_cons, IH.
Qed.

Lemma string_app_length s t :
  String.length (s +:+ t) = String.length s + String.length t.
Proof.
  induction s as [|c s IH]; [done|]. rewrite string_app_cons. simpl. by rewrite IH.
Qed.

Lemma expect_app lit rest : expect lit (lit +:+ rest) = Some rest.
Proof.
  induction lit as [|c lit IH]; [done|].
  rewrite string_app_cons. simpl. by rewrite bool_decide_eq_true_2.
Qed.

(** *** Integers *)

Lemma digit_of_pretty_N_char d :
  (d < 10)%N → digit_of (pretty_N_char d) = Some d.
Proof.
  intros Hd.
  assert (d = 0 ∨ d = 1 ∨ d = 2 ∨ d = 3 ∨ d = 4 ∨ d = 5 ∨ d = 6
          ∨ d = 7 ∨ d = 8 ∨ d = 9)%N as Hcases by lia.
  repeat (destruct Hcases as [-> | Hcases]; [done|]). by subst.
Qed.

Lemma parse_digits_stop acc s : no_digit_head s → parse_digits acc s = (acc, s).
Proof. destruct s as [|c s]; [done|]. simpl. by intros ->. Qed.

Lemma pretty_N_go_app x s t : pretty_N_go x s +:+ t = pretty_N_go x (s +:+ t).
Proof.
  revert s. induction (N.lt_wf_0 x) as [x _ IH]; intros s.
  destruct (decide (x = 0)%N) as [->|Hx]; [by rewrite !pretty_N_go_0|].
  rewrite (pretty_N_go_step x s), (pretty_N_go_step x (s +:+ t)) by lia.
  rewrite IH by (apply N.div_lt; lia). reflexivity.
Qed.

Lemma parse_digits_pretty_N_go x :
  ∃ k, ∀ s acc,
    parse_digits acc (pretty_N_go x s) = parse_digits (acc * 10 ^ k + x) s.
Proof.
  induction (N.lt_wf_0 x) as [x _ IH].
  destruct (decide (x = 0)%N) as [->|Hx].
  { exists 0%N. intros s acc. rewrite pretty_N_go_0. f_equal. lia. }
  destruct (IH (x `div` 10)%N) as [k Hk]; [apply N.div_lt; lia|].
  exists (k + 1)%N. intros s acc. rewrite pretty_N_go_step by lia.
  rewrite Hk. simpl.
  rewrite digit_of_pretty_N_char by (apply N.mod_lt; lia).
  f_equal. rewrite N.pow_add_r. pose proof (N.div_mod x 10). lia.
Qed.

Lemma pretty_N_go_head x s :
  (0 < x)%N → ∃ d rest, (d < 10)%N ∧ pretty_N_go x s = String (pretty_N_char d) rest.
Proof.
  revert s. induction (N.lt_wf_0 x) as [x _ IH]; intros s Hx.
  rewrite pretty_N_go_step by done.
  destruct (decide (x `div` 10 = 0)%N) as [Hz|Hnz].
  - rewrite Hz, pretty_N_go_0. exists (x `mod` 10)%N, s.
    split; [apply N.mod_lt; lia|done].
  - apply IH; [apply N.div_lt; lia|by apply N.neq_0_lt_0].
Qed.

Lemma pretty_N_head (n : N) rest :
  ∃ d tail, (d < 10)%N ∧ pretty n +:+ rest = String (pretty_N_char d) tail.
Proof.
  unfold pretty, pretty_N. case_decide as Hn.
  - exists 0%N, rest. by split.
  - destruct (pretty_N_go_head n "" ltac:(lia)) as (d & tail & Hd & ->).
    exists d, (tail +:+ rest). by split.
Qed.

Lemma parse_N_pretty (n : N) rest :
  no_digit_head rest → parse_N (pretty n +:+ rest) = Some (n, rest).
Proof.
  intros Hrest. unfold parse_N.
  destruct (pretty_N_head n rest) as (d & tail & Hd & Hhead).
  rewrite Hhead, digit_of_pretty_N_char by done. rewrite <- Hhead.
  f_equal. unfold pretty, pretty_N. case_decide as Hn.
  - subst. rewrite string_app_cons, string_app_nil_l. simpl.
    by apply parse_digits_stop.
  - rewrite pretty_N_go_app, string_app_nil_l.
    destruct (parse_digits_pretty_N_go n) as [k Hk]. rewrite Hk.
    rewrite N.mul_0_l, N.add_0_l. by apply parse_digits_stop.
Qed.

(** *** Four-decimal numbers *)

Lemma digits4_value (u : N) :
  ((u / 1000) mod 10 * 1000 + (u / 100) mod 10 * 100 + (u / 10) mod 10 * 10
   + u mod 10 = u mod 10000)%N.
Proof.
  change 1000%N with (10 * 10 * 10)%N. change 100%N with (10 * 10)%N.
  change 10000%N with (10 * (10 * (10 * 10)))%N.
  rewrite <- !N.Div0.div_div.
  pose proof (N.Div0.div_mod u 10).
  pose proof (N.mod_lt u 10 ltac:(discriminate)).
  pose proof (N.Div0.div_mod (u / 10) 10).
  pose proof (N.mod_lt (u / 10) 10 ltac:(discriminate)).
  pose proof (N.Div0.div_mod (u / 10 / 10) 10).
  pose proof (N.mod_lt (u / 10 / 10) 10 ltac:(discriminate)).
  pose proof (N.Div0.div_mod (u / 10 / 10 / 10) 10).
  pose proof (N.mod_lt (u / 10 / 10 / 10) 10 ltac:(discriminate)).
  apply (N.mod_unique _ _ (u / 10 / 10 / 10 / 10)); lia.
Qed.

Lemma parse_frac4_digits4 u rest :
  parse_frac4 (digits4 u +:+ rest) = Some ((u `mod` 10000)%N, rest).
Proof.
  unfold digits4. rewrite !string_app_cons, string_app_nil_l. simpl.
  rewrite !digit_of_pretty_N_char by (apply N.mod_lt; discriminate). simpl.
  by rewrite digits4_value.
Qed.

Lemma split_sign_digit d tail :
  (d < 10)%N →
  split_sign (String (pretty_N_char d) tail)
  = (false, String (pretty_N_char d) tail).
Proof.
  intros Hd.
  assert (d = 0 ∨ d = 1 ∨ d = 2 ∨ d = 3 ∨ d = 4 ∨ d = 5 ∨ d = 6
          ∨ d = 7 ∨ d = 8 ∨ d = 9)%N as Hcases by lia.
  repeat (destruct Hcases as [-> | Hcases]; [done|]). by subst.
Qed.

Lemma parse_fixed4_str q rest :
  parse_fixed4 (str_fixed4 q +:+ rest) = Some (q, rest).
Proof.
  destruct q as [neg u]. unfold str_fixed4, parse_fixed4. simpl f4_neg. simpl f4_units.
  rewrite !string_app_assoc.
  assert (split_sign ((if neg then "-" else "")
                      +:+ pretty (u `div` 10000)%N +:+ "." +:+ digits4 u +:+ rest)
          = (neg, pretty (u `div` 10000)%N +:+ "." +:+ digits4 u +:+ rest))
    as ->.
  { destruct neg; [done|]. rewrite string_app_nil_l.
    destruct (pretty_N_head (u `div` 10000)%N ("." +:+ digits4 u +:+ rest))
      as (d & tail & Hd & ->).
    by apply split_sign_digit. }
  rewrite parse_N_pretty by done.
  simpl.
  rewrite !digit_of_pretty_N_char by (apply N.mod_lt; discriminate). simpl.
  rewrite digits4_value, string_app_nil_l.
  do 3 f_equal. pose proof (N.Div0.div_mod u 10000). lia.
Qed.

Lemma format_4f_rounded v q : rounded v = Some q → format_4f v = str_fixed4 q.
Proof. destruct v; try done. by intros [= <-]. Qed.

(** *** Blocks and the whole text *)

Lemma string_app_nil_r s : s +:+ "" = s.
Proof. induction s as [|c s IH]; [done|]. by rewrite string_app_cons, IH. Qed.

Lemma concat_cons (x : string) (l : list string) :
  String.concat "" (x :: l) = x +:+ String.concat "" l.
Proof. destruct l; simpl; [by rewrite string_app_nil_r|done]. Qed.

Lemma parse_block_landmark lm r rest :
  rounded_landmark lm = Some r →
  parse_block (landmark_block lm +:+ rest) = Some (r, rest).
Proof.
  unfold rounded_landmark. intros Hr.
  destruct (rounded (lm_x lm)) as [x|] eqn:Hx; [|done].
  destruct (rounded (lm_y lm)) as [y|] eqn:Hy; [|done].
  destruct (rounded (lm_z lm)) as [z|] eqn:Hz; [|done].
  destruct (rounded (lm_visibility lm)) as [v|] eqn:Hv; [|done].
  simpl in Hr. injection Hr as <-.
  unfold landmark_block, parse_block.
  rewrite (format_4f_rounded _ _ Hx), (format_4f_rounded _ _ Hy),
    (format_4f_rounded _ _ Hz), (format_4f_rounded _ _ Hv).
  rewrite !string_app_assoc.
  rewrite expect_app. cbn [mbind option_bind].
  change (pretty (lm_id lm)) with (pretty (N.of_nat (lm_id lm))).
  rewrite parse_N_pretty by done. cbn [mbind option_bind].
  rewrite <- (string_app_assoc LF "Position: x="), expect_app.
  cbn [mbind option_bind].
  rewrite parse_fixed4_str. cbn [mbind option_bind].
  rewrite expect_app. cbn [mbind option_bind].
  rewrite parse_fixed4_str. cbn [mbind option_bind].
  rewrite expect_app. cbn [mbind option_bind].
  rewrite parse_fixed4_str. cbn [mbind option_bind].
  rewrite <- (string_app_assoc LF "Visibility: "), expect_app.
  cbn [mbind option_bind].
  rewrite parse_fixed4_str. cbn [mbind option_bind].
  by rewrite <- (string_app_assoc LF LF), expect_app.
Qed.

Lemma landmark_block_head lm rest :
  ∃ c t, landmark_block lm +:+ rest = String c t
         ∧ String.length rest < String.length (String c t).
Proof.
  eexists _, _. split; [reflexivity|].
  change (String.length rest < String.length (landmark_block lm +:+ rest)).
  rewrite string_app_length. unfold landmark_block.
  rewrite string_app_length. simpl. lia.
Qed.

Lemma parse_blocks_landmarks l rs fuel :
  Forall2 (λ lm r, rounded_landmark lm = Some r) l rs →
  String.length (String.concat "" (landmark_block <$> l)) ≤ fuel →
  parse_blocks fuel (String.concat "" (landmark_block <$> l)) = Some rs.
Proof.
  intros Hrs. revert fuel.
  induction Hrs as [|lm r l rs Hr Hrs IH]; intros fuel Hfuel.
  { by destruct fuel. }
  rewrite fmap_cons, concat_cons in *.
  destruct (landmark_block_head lm (String.concat "" (landmark_block <$> l)))
    as (c & t & Hhead & Hlen).
  rewrite Hhead in Hfuel. destruct fuel as [|fuel]; [simpl in Hfuel; lia|].
  rewrite Hhead. simpl parse_blocks. rewrite <- Hhead.
  rewrite (parse_block_landmark _ _ _ Hr). simpl.
  rewrite IH; [done|]. simpl in *. lia.
Qed.

Lemma landmarks_text_reads_back d r :
  rounded_landmarks d = Some r →
  parse_landmarks_text (landmarks_text d) = Some r.
Proof.
  unfold rounded_landmarks. intros Hr.
  destruct (mapM rounded_landmark (landmarks d)) as [rs|] eqn:Hrs; [|done].
  cbn [mbind option_bind] in Hr. injection Hr as <-. apply mapM_Some in Hrs.
  unfold landmarks_text, repr_image_size, parse_landmarks_text.
  rewrite !string_app_assoc.
  rewrite <- (string_app_assoc "Image size: " "{'width': ").
  change ("Image size: " +:+ "{'width': ") with "Image size: {'width': ".
  rewrite expect_app. cbn [mbind option_bind].
  rewrite parse_N_pretty by done. cbn [mbind option_bind].
  rewrite expect_app. cbn [mbind option_bind].
  rewrite parse_N_pretty by done. cbn [mbind option_bind].
  rewrite <- (string_app_assoc "Landmarks:" LF).
  rewrite <- (string_app_assoc LF ("Landmarks:" +:+ LF)).
  rewrite <- (string_app_assoc LF (LF +:+ "Landmarks:" +:+ LF)).
  rewrite <- (string_app_assoc "}" (LF +:+ LF +:+ "Landmarks:" +:+ LF)).
  rewrite expect_app. cbn [mbind option_bind].
  by rewrite (parse_blocks_landmarks _ rs).
Qed.

Lemma landmark_block_read lm b :
  rounded_landmark lm = Some b → landmark_block lm = read_block_text b.
Proof.
  unfold rounded_landmark. intros Hb.
  destruct (rounded (lm_x lm)) as [x|] eqn:Hx; [|done].
  destruct (rounded (lm_y lm)) as [y|] eqn:Hy; [|done].
  destruct (rounded (lm_z lm)) as [z|] eqn:Hz; [|done].
  destruct (rounded (lm_visibility lm)) as [v|] eqn:Hv; [|done].
  cbn [mbind option_bind] in Hb. injection Hb as <-.
  unfold landmark_block, read_block_text. simpl rl_id. simpl rl_x.
  simpl rl_y. simpl rl_z. simpl rl_visibility.
  by rewrite (format_4f_rounded _ _ Hx), (format_4f_rounded _ _ Hy),
    (format_4f_rounded _ _ Hz), (format_4f_rounded _ _ Hv).
Qed.

(** C5 (as amended).  For a landmark collection whose x, y, z and visibility
    values are all finite, [save_landmarks] writes: the header line with the
    width and the height, a blank line, the line [Landmarks:], then one block
    per landmark, each ended by a blank line, holding the index and the four
    values as an optional sign, the integer digits, a point and exactly four
    digits.  The strict reader recovers from this text the dimensions, the
    indices and the four decimals of every landmark. *)
Theorem landmarks_text_round_trip d r :
  rounded_landmarks d = Some r →
  landmarks_text d
  = "Image size: {'width': " +:+ pretty (read_width r)
    +:+ ", 'height': " +:+ pretty (read_height r) +:+ "}" +:+ LF +:+ LF
    +:+ "Landmarks:" +:+ LF
    +:+ String.concat "" (read_block_text <$> read_blocks r)
  ∧ (∀ q, str_fixed4 q
          = (if f4_neg q then "-" else "") +:+ pretty (f4_units q / 10000)%N
            +:+ "." +:+ digits4 (f4_units q)
          ∧ String.length (digits4 (f4_units q)) = 4)
  ∧ parse_landmarks_text (landmarks_text d) = Some r
  ∧ (∀ output_file w,
       lookup_node (w_fs w) output_file ≠ Some Dir →
       w_fs (after (save_landmarks d output_file) w) !! output_file
       = Some (File (landmarks_text d))).
Proof.
  intros Hr. split_and!.
  - unfold rounded_landmarks in Hr.
    destruct (mapM rounded_landmark (landmarks d)) as [rs|] eqn:Hrs; [|done].
    cbn [mbind option_bind] in Hr. injection Hr as <-. apply mapM_Some in Hrs.
    unfold landmarks_text, repr_image_size. simpl read_width.
    simpl read_height. simpl read_blocks.
    assert (String.concat "" (map landmark_block (landmarks d))
            = String.concat "" (read_block_text <$> rs)) as ->.
    { induction Hrs as [|lm b l rs Hb Hrs IH]; [done|].
      change (map landmark_block (lm :: l))
        with (landmark_block lm :: map landmark_block l).
      by rewrite fmap_cons, !concat_cons, IH, (landmark_block_read _ _ Hb). }
    rewrite !string_app_assoc. reflexivity.
  - done.
  - by apply landmarks_text_reads_back.
  - intros output_file w Hnd.
    unfold after, save_landmarks, mbind, M_bind, get_fs, put_fs, emit. simpl.
    destruct (lookup_node (w_fs w) output_file) as [[|?]|]; simpl; try done;
      by rewrite lookup_insert_eq.
Qed.

(** A NaN coordinate is printed as [nan]: no decimal point, no four
    digits, and the text does not read back. *)
Lemma nan_does_not_round_trip : ¬ round_trips nan_landmarks.
Proof.
  unfold round_trips.
  replace (parse_landmarks_text (landmarks_text nan_landmarks)) with
    (@None read_landmarks) by (vm_compute; reflexivity).
  by intros [? ?].
Qed.

Lemma landmarks_text_round_trip_witness :
  parse_landmarks_text (landmarks_text two_landmarks) = Some two_landmarks_read.
Proof.
  refine (proj1 (proj2 (proj2
    (landmarks_text_round_trip two_landmarks two_landmarks_read _)))).
  vm_compute. reflexivity.
Defined.

(** * Further properties of the two scripts *)

(** ** [process_image] and one file of the batch *)

Section ProcessorFurther.
Variable X : External.
Variables input_path output_path : path.

Local Abbreviation body := (process_file X input_path output_path).
Local Abbreviation guarded := (process_file_guarded X input_path output_path).
Local Abbreviation loop names := (for_each names guarded).
Local Abbreviation plan_of := (plan_of X input_path).
Local Abbreviation pose_path := (pose_path output_path).
Local Abbreviation landmarks_path := (landmarks_path output_path).

(** X1.  When the estimator returns landmarks, [process_image] returns one
    record per landmark, in the same order, numbered from 0, with the four
    values copied unchanged, together with the width and the height of the
    input image; the returned image is the input with the skeleton drawn,
    blended with the segmentation mask when there is one.  The estimator
    sees the RGB conversion, the drawing is done on the BGR original. *)
Theorem process_image_landmarks img results lms :
  pose_process X (cvtColor_BGR2RGB img) = Ret results →
  pose_landmarks results = Some lms →
  ∃ d,
    process_image X img
    = Ret (match segmentation_mask results with
           | Some mask => overlay_mask X (draw_landmarks X img lms) mask
           | None => draw_landmarks X img lms
           end, Some d)
    ∧ length (landmarks d) = length lms
    ∧ (∀ i lm, lms !! i = Some lm →
         landmarks d !! i
         = Some (Landmark i (pb_x lm) (pb_y lm) (pb_z lm) (pb_visibility lm)))
    ∧ image_size_width d = img_width img
    ∧ image_size_height d = img_height img.
Proof.
  intros Hpose Hlms. unfold process_image. rewrite Hpose. simpl.
  rewrite Hlms. eexists. split; [reflexivity|]. simpl. split_and!; try done.
  - apply length_imap.
  - intros i lm Hi. by rewrite list_lookup_imap, Hi.
Qed.

(** X2.  A file that [cv2.imread] cannot read (it is missing, a directory,
    or its bytes do not decode) is skipped: one line naming its full path is
    printed, nothing is written, no error line is printed, and the loop
    goes on with the next file. *)
Theorem unreadable_skipped n rest w :
  (∀ data, w_fs w !! (input_path ++ [n]) = Some (File data) →
           imread_data X data = Ret None) →
  let skipped :=
    World (w_fs w)
      (w_trace w
         ++ [EPrint (LF +:+ "無法讀取圖片: " +:+ str_path (input_path ++ [n]))]) in
  process_file_guarded X input_path output_path n w = (Ret (), skipped)
  ∧ for_each (n :: rest) (process_file_guarded X input_path output_path) w
    = for_each rest (process_file_guarded X input_path output_path) skipped.
Proof.
  intros Hread skipped.
  assert (body n w = (Ret (), skipped)) as Hb.
  { rewrite process_file_plan. unfold plan_of.
    rewrite lookup_node_child.
    destruct (w_fs w !! (input_path ++ [n])) as [[|data]|] eqn:Hn; try done.
    by rewrite (Hread data). }
  pose proof (guarded_Ret _ _ _ _ _ _ Hb) as Hg. split; [done|].
  simpl. unfold mbind, M_bind. by rewrite Hg.
Qed.

Lemma plan_of_image n fs data img result_image ld encoded :
  fs !! (input_path ++ [n]) = Some (File data) →
  imread_data X data = Ret (Some img) →
  process_image X img = Ret (result_image, ld) →
  imencode X ("pose_" +:+ n) result_image = Ret encoded →
  plan_of fs n = PImage encoded ld.
Proof.
  intros Hin Hread Hproc Henc. unfold plan_of.
  rewrite lookup_node_child, Hin, Hread, Hproc. unfold pose_name.
  by rewrite Henc.
Qed.

(** X3.  An image with a detected pose, when both writes can succeed: the
    annotated image is written first under [pose_<name>], then the landmark
    text under [landmarks_<stem>.txt], replacing whatever files were there;
    nothing is printed and nothing else changes. *)
Theorem pose_writes_both n w data img result_image d encoded :
  w_fs w !! (input_path ++ [n]) = Some (File data) →
  imread_data X data = Ret (Some img) →
  process_image X img = Ret (result_image, Some d) →
  imencode X ("pose_" +:+ n) result_image = Ret encoded →
  w_fs w !! (output_path ++ ["pose_" +:+ n]) ≠ Some Dir →
  w_fs w !! (output_path ++ [landmarks_name n]) ≠ Some Dir →
  process_file X input_path output_path n w
  = (Ret (),
     World
       (<[output_path ++ [landmarks_name n] := File (landmarks_text d)]>
          (<[output_path ++ ["pose_" +:+ n] := File encoded]> (w_fs w)))
       (w_trace w ++ [EWriteImage (output_path ++ ["pose_" +:+ n]);
                      EWriteText (output_path ++ [landmarks_name n])])).
Proof.
  intros Hin Hread Hproc Henc Hpp Hlp.
  rewrite process_file_plan.
  rewrite (plan_of_image _ _ _ _ _ _ _ Hin Hread Hproc Henc). simpl.
  unfold write_image, pose_path, pose_name. rewrite lookup_node_child.
  unfold save_landmarks, mbind, M_bind, get_fs, put_fs, emit, raise.
  assert (output_path ++ ["pose_" +:+ n] ≠ output_path ++ [landmarks_name n])
    as Hne by apply pose_path_ne_landmarks_path.
  destruct (w_fs w !! (output_path ++ ["pose_" +:+ n])) as [[|?]|] eqn:Hp;
    try done; simpl; unfold landmarks_path;
    rewrite lookup_node_child, lookup_insert_ne by done;
    destruct (w_fs w !! (output_path ++ [landmarks_name n])) as [[|?]|];
    try done; simpl; by rewrite <- app_assoc.
Qed.

Lemma process_directory_returns w fs1 :
  mkdir_from [] output_path (w_fs w) = Ret fs1 →
  result (process_directory X input_path output_path) w = Ret ().
Proof.
  intros Hmk. unfold result.
  destruct (decide (image_files fs1 input_path = [])) as [Hnil|Hne].
  - by rewrite (process_directory_empty _ _ _ _ _ Hmk Hnil).
  - by rewrite (process_directory_loop _ _ _ _ _ Hmk Hne), for_each_guarded.
Qed.

(** X4.  Per-image failures never abort the batch: [process_directory]
    raises only when the output directory cannot be created, and then
    before anything is printed, read or written; otherwise it returns
    normally whatever happens to the individual images. *)
Theorem batch_survives w :
  match mkdir_from [] output_path (w_fs w) with
  | Ret _ => result (process_directory X input_path output_path) w = Ret ()
  | Raise e => process_directory X input_path output_path w = (Raise e, w)
  end.
Proof.
  destruct (mkdir_from [] output_path (w_fs w)) as [fs1|e] eqn:Hmk.
  - by apply (process_directory_returns w fs1).
  - by apply process_directory_mkdir_fails.
Qed.

(** *** What a run leaves alone *)

Lemma write_image_keeps name data w p :
  is_Some (w_fs w !! p) →
  is_Some (w_fs (write_image output_path name data w) !! p).
Proof.
  intros Hp. unfold write_image.
  destruct (lookup_node (w_fs w) _) as [[|?]|]; simpl; try done;
    apply lookup_insert_is_Some'; auto.
Qed.

Lemma guarded_keeps n w p :
  is_Some (w_fs w !! p) → is_Some (w_fs (after (guarded n) w) !! p).
Proof.
  intros Hp. unfold after, process_file_guarded, try_except.
  rewrite process_file_plan.
  destruct (plan_of (w_fs w) n) as [|e|data [d|]]; simpl; try done.
  - unfold save_landmarks, mbind, M_bind, get_fs, put_fs, emit, raise. simpl.
    pose proof (write_image_keeps n data w p Hp) as Hk.
    destruct (lookup_node _ (landmarks_path n)) as [[|?]|]; simpl; try done;
      apply lookup_insert_is_Some'; auto.
  - by apply write_image_keeps.
Qed.

Lemma loop_keeps names w p :
  is_Some (w_fs w !! p) → is_Some (w_fs (after (loop names) w) !! p).
Proof.
  revert w. induction names as [|n names IH]; intros w Hp; [done|].
  rewrite after_for_each_cons. by apply IH, guarded_keeps.
Qed.

Lemma after_process_directory w fs1 :
  mkdir_from [] output_path (w_fs w) = Ret fs1 →
  ∃ tr, w_fs (after (process_directory X input_path output_path) w)
        = w_fs (after (loop (image_files fs1 input_path)) (World fs1 tr)).
Proof.
  intros Hmk. unfold after at 1.
  destruct (decide (image_files fs1 input_path = [])) as [Hnil|Hne].
  - rewrite (process_directory_empty _ _ _ _ _ Hmk Hnil), Hnil. by exists [].
  - rewrite (process_directory_loop _ _ _ _ _ Hmk Hne). by eexists.
Qed.

(** X5.  A run never removes an entry, never turns a directory into a file
    or a file into a directory, and changes nothing except the [pose_] and
    [landmarks_] files of the recognized images (and the directories
    [mkdir] created); with the output directory distinct from the input
    directory, every entry of the input directory is left as it was. *)
Theorem run_touches_only_outputs w fs1 :
  mkdir_from [] output_path (w_fs w) = Ret fs1 →
  let w' := after (process_directory X input_path output_path) w in
  (∀ p, is_Some (w_fs w !! p) → is_Some (w_fs w' !! p))
  ∧ (∀ p, lookup_node (w_fs w') p = Some Dir ↔ lookup_node fs1 p = Some Dir)
  ∧ (∀ p, (∀ n, n ∈ image_files fs1 input_path →
                p ≠ output_path ++ [pose_name n]
                ∧ p ≠ output_path ++ [landmarks_name n]) →
          lookup_node (w_fs w') p = lookup_node fs1 p)
  ∧ (input_path ≠ output_path →
     ∀ n, w_fs w' !! (input_path ++ [n]) = fs1 !! (input_path ++ [n])).
Proof.
  intros Hmk w'. destruct (after_process_directory w fs1 Hmk) as [tr Hw'].
  unfold w'. rewrite Hw'.
  pose proof (loop_changes X input_path output_path
                (image_files fs1 input_path) (World fs1 tr)) as [Hd Hf].
  simpl in Hd, Hf. split_and!.
  - intros p Hp. apply loop_keeps. simpl.
    destruct (mkdir_from_extends _ _ _ _ Hmk p) as [-> | [Hnone _]]; [done|].
    rewrite Hnone in Hp. by destruct Hp.
  - done.
  - intros p Hp. apply Hf. unfold outputs_of. intros Hin.
    apply list_elem_of_bind in Hin as (n & Hin & Hn).
    destruct (Hp n Hn) as [H1 H2].
    unfold pose_path, landmarks_path in Hin. set_solver.
  - intros Hne n. rewrite <- !lookup_node_child. apply Hf.
    by apply input_not_output.
Qed.
End ProcessorFurther.

(** ** The rendered images of a whole run *)

Section RenderedImages.
Variable X : External.
Variables input_path output_path : path.

Local Abbreviation guarded := (process_file_guarded X input_path output_path).
Local Abbreviation loop names := (for_each names guarded).
Local Abbreviation plan_of := (plan_of X input_path).
Local Abbreviation pose_path := (pose_path output_path).
Local Abbreviation landmarks_path := (landmarks_path output_path).
Local Abbreviation outputs_of := (outputs_of output_path).

Lemma guarded_writes_image n w data ld :
  plan_of (w_fs w) n = PImage data ld →
  is_dir (w_fs w) (pose_path n) = false →
  w_fs (after (guarded n) w) !! pose_path n = Some (File data).
Proof.
  intros Hp Hd. apply is_dir_false in Hd.
  assert (w_fs (write_image output_path n data w) !! pose_path n
          = Some (File data)) as Hw.
  { unfold write_image.
    destruct (lookup_node (w_fs w) (pose_path n)) as [[|?]|]; simpl;
      try done; by rewrite lookup_insert_eq. }
  unfold after, process_file_guarded, try_except.
  rewrite process_file_plan, Hp. destruct ld as [d|]; simpl; [|done].
  unfold save_landmarks, mbind, M_bind, get_fs, put_fs, emit, raise. simpl.
  destruct (lookup_node _ (landmarks_path n)) as [[|?]|]; simpl; try done;
    by rewrite lookup_insert_ne by (symmetry; apply pose_path_ne_landmarks_path).
Qed.

Lemma pose_path_not_later n names :
  n ∉ names → pose_path n ∉ outputs_of names.
Proof.
  intros Hn Hin. unfold outputs_of in Hin.
  apply list_elem_of_bind in Hin as (m & Hin & Hm).
  apply elem_of_cons in Hin as [Heq | Hin].
  { unfold pose_path, pose_name in Heq. apply app_inj_tail in Heq as [_ Heq].
    injection Heq as Heq. apply String.app_inj in Heq. by subst. }
  apply elem_of_cons in Hin as [Heq | Hin].
  { by apply pose_path_ne_landmarks_path in Heq. }
  by apply elem_of_nil in Hin.
Qed.

(** X6.  One rendered image per processed image: when the names of the
    batch are distinct, the image written for a file is still in the output
    directory, unchanged, at the end of the run; neither a later image nor a
    landmark file overwrites it.  (Landmark files, named by stem, do not
    have this property.) *)
Theorem rendered_image_kept names n w data img result_image ld encoded :
  input_path ≠ output_path →
  NoDup names →
  n ∈ names →
  w_fs w !! (input_path ++ [n]) = Some (File data) →
  imread_data X data = Ret (Some img) →
  process_image X img = Ret (result_image, ld) →
  imencode X ("pose_" +:+ n) result_image = Ret encoded →
  w_fs w !! (output_path ++ ["pose_" +:+ n]) ≠ Some Dir →
  w_fs (after (for_each names (process_file_guarded X input_path output_path)) w)
    !! (output_path ++ ["pose_" +:+ n])
  = Some (File encoded).
Proof.
  intros Hne Hnd Hn Hin Hread Hproc Henc Hpp.
  apply list_elem_of_split in Hn as (l1 & l2 & ->).
  apply NoDup_app in Hnd as (_ & _ & Hnd2).
  apply NoDup_cons in Hnd2 as [Hn2 _].
  rewrite after_for_each_app, after_for_each_cons.
  set (w1 := after (loop l1) w).
  pose proof (loop_changes X input_path output_path l1 w) as Hch1.
  assert (w_fs (after (guarded n) w1) !! pose_path n = Some (File encoded))
    as Hstep.
  { apply (guarded_writes_image _ _ _ ld).
    - unfold w1. rewrite (plan_of_stable X input_path output_path l1 (w_fs w))
        by done.
      by apply (plan_of_image X input_path n (w_fs w) data img result_image).
    - unfold w1. rewrite (is_dir_stable _ _ _ _ Hch1).
      apply is_dir_false. unfold pose_path, pose_name.
      by rewrite lookup_node_child. }
  pose proof (loop_changes X input_path output_path l2 (after (guarded n) w1))
    as [_ Hf].
  specialize (Hf (pose_path n) (pose_path_not_later n l2 Hn2)).
  unfold pose_path, pose_name in Hf, Hstep.
  rewrite !lookup_node_child in Hf. by rewrite Hf.
Qed.

Lemma StronglySorted_weaken {A} (R R' : relation A) (l : list A) :
  (∀ a b, R a b → R' a b) → StronglySorted R l → StronglySorted R' l.
Proof.
  intros HR. induction 1 as [|a l Hl IH Ha]; constructor; [done|].
  eapply Forall_impl; [exact Ha|]. intros b. apply HR.
Qed.

Lemma omap_sublist {A B} (f : A → option B) (g : A → B) (l : list A) :
  (∀ a b, f a = Some b → b = g a) → omap f l `sublist_of` (g <$> l).
Proof.
  intros Hfg. induction l as [|a l IH]; csimpl; [constructor|].
  destruct (f a) as [b|] eqn:Hf.
  - rewrite (Hfg _ _ Hf). by constructor.
  - by constructor.
Qed.

(** X7.  The images are discovered and processed in ascending order of
    their names (bytes compared), and the rendered images are written in
    that order: the written image paths form a sub-list of the [pose_] paths
    of the sorted names. *)
Theorem images_written_in_order w fs1 :
  input_path ≠ output_path →
  mkdir_from [] output_path (w_fs w) = Ret fs1 →
  StronglySorted (λ a b, String.leb a b = true) (image_files fs1 input_path)
  ∧ ∃ evs,
      w_trace (after (process_directory X input_path output_path) w)
      = w_trace w ++ evs
      ∧ written_images evs
        `sublist_of` ((λ n, output_path ++ ["pose_" +:+ n])
                        <$> image_files fs1 input_path).
Proof.
  intros Hne Hmk. split.
  - unfold image_files, sorted.
    eapply StronglySorted_weaken; [|apply (StronglySorted_merge_sort String.le)].
    intros a b Hab. by apply Is_true_true.
  - unfold after.
    destruct (decide (image_files fs1 input_path = [])) as [Hnil|Hnn].
    + rewrite (process_directory_empty _ _ _ _ _ Hmk Hnil). simpl.
      eexists. split; [done|]. simpl. apply sublist_nil_l.
    + rewrite (process_directory_loop _ _ _ _ _ Hmk Hnn).
      set (w0 := World fs1 _).
      destruct (loop_trace X input_path output_path
                  (image_files fs1 input_path) w0 Hne) as (evs & Ht & _ & Hi).
      unfold after in Ht. rewrite Ht. simpl. rewrite <- app_assoc.
      eexists. split; [done|].
      rewrite written_images_app, Hi. simpl. apply omap_sublist.
      intros n p. unfold image_written.
      destruct (plan_of fs1 n); try done. by case_match; intros [= <-].
Qed.
End RenderedImages.

Lemma process_image_landmarks_witness :
  ∃ d, process_image demo (demo_image "person")
       = Ret (draw_landmarks demo (demo_image "person")
                [PbLandmark (Ffinite false 112 (-8)) half half half], Some d)
       ∧ length (landmarks d) = 1.
Proof.
  destruct (process_image_landmarks demo (demo_image "person")
              (PoseResults
                 (Some [PbLandmark (Ffinite false 112 (-8)) half half half])
                 None)
              [PbLandmark (Ffinite false 112 (-8)) half half half]
              ltac:(vm_compute; reflexivity) ltac:(reflexivity))
    as (d & Hd & Hlen & _).
  exists d. split; [exact Hd|exact Hlen].
Defined.

Lemma unreadable_skipped_witness :
  stdout (w_trace (after (process_file_guarded demo data_dir out_dir "a.jpg")
                     (World fs_corrupt [])))
  = [LF +:+ "無法讀取圖片: /data/a.jpg"].
Proof.
  refine (f_equal (λ r, stdout (w_trace r.2)) (proj1
    (unreadable_skipped demo data_dir out_dir "a.jpg" [] (World fs_corrupt [])
       _))).
  intros data Hdata. vm_compute in Hdata. injection Hdata as <-.
  vm_compute. reflexivity.
Defined.

Lemma pose_writes_both_witness :
  result (process_file demo data_dir out_dir "a.jpg") (World fs_two_poses [])
  = Ret ().
Proof.
  refine (f_equal fst
    (pose_writes_both demo data_dir out_dir "a.jpg" (World fs_two_poses [])
       "person" (demo_image "person")
       (draw_landmarks demo (demo_image "person")
          [PbLandmark (Ffinite false 112 (-8)) half half half])
       (LandmarksDict [Landmark 0 (Ffinite false 112 (-8)) half half half] 6 1)
       (demo_data
          (draw_landmarks demo (demo_image "person")
             [PbLandmark (Ffinite false 112 (-8)) half half half]))
       _ _ _ _ _ _)).
  - vm_compute. reflexivity.
  - vm_compute. reflexivity.
  - vm_compute. reflexivity.
  - vm_compute. reflexivity.
  - vm_compute. discriminate.
  - vm_compute. discriminate.
Defined.

Lemma run_touches_only_outputs_witness :
  w_fs (after (process_directory demo data_dir out_dir) (World fs_same_stem []))
    !! (data_dir ++ ["a.jpg"])
  = fs_same_stem !! (data_dir ++ ["a.jpg"]).
Proof.
  refine (proj2 (proj2 (proj2
    (run_touches_only_outputs demo data_dir out_dir (World fs_same_stem [])
       fs_same_stem _))) _ "a.jpg").
  - reflexivity.
  - vm_compute. discriminate.
Defined.

Lemma rendered_image_kept_witness :
  w_fs (after (for_each ["a.jpg"; "a.png"]
                 (process_file_guarded demo data_dir out_dir))
          (World fs_two_poses []))
    !! (out_dir ++ ["pose_" +:+ "a.jpg"])
  = Some (File (demo_data
                  (draw_landmarks demo (demo_image "person")
                     [PbLandmark (Ffinite false 112 (-8)) half half half]))).
Proof.
  refine (rendered_image_kept demo data_dir out_dir ["a.jpg"; "a.png"] "a.jpg"
            (World fs_two_poses []) "person" (demo_image "person")
            (draw_landmarks demo (demo_image "person")
               [PbLandmark (Ffinite false 112 (-8)) half half half])
            (Some (LandmarksDict
                     [Landmark 0 (Ffinite false 112 (-8)) half half half] 6 1))
            _ _ _ _ _ _ _ _ _).
  - vm_compute. discriminate.
  - apply (bool_decide_unpack _). vm_compute. exact I.
  - apply (bool_decide_unpack _). vm_compute. exact I.
  - vm_compute. reflexivity.
  - vm_compute. reflexivity.
  - vm_compute. reflexivity.
  - vm_compute. reflexivity.
  - vm_compute. discriminate.
Defined.

Lemma images_written_in_order_witness :
  StronglySorted (λ a b, String.leb a b = true)
    (image_files fs_same_stem data_dir).
Proof.
  refine (proj1
    (images_written_in_order demo data_dir out_dir (World fs_same_stem [])
       fs_same_stem _ _)).
  - vm_compute. discriminate.
  - reflexivity.
Defined.

(** ** The invoker, once an executable is located *)

Lemma find_split {A} (f : A → bool) (l1 : list A) (x : A) (l2 : list A) :
  (∀ c, c ∈ l1 → f c = false) → f x = true →
  List.find f (l1 ++ x :: l2) = Some x.
Proof.
  intros Hl1 Hx. induction l1 as [|a l1 IH]; simpl.
  - by rewrite Hx.
  - rewrite (Hl1 a) by set_solver. apply IH. intros c Hc. apply Hl1. set_solver.
Qed.

Section InvokerFurther.
Variable H : Host.
Variable cwd : path.

Lemma invoker_located w fs1 openpose_binary :
  exists_ (w_fs w) input_dir = true →
  mkdir_from [] output_dir (w_fs w) = Ret fs1 →
  List.find (λ p, exists_ (w_fs w) (resolve cwd p)) possible_paths
  = Some openpose_binary →
  invoker H cwd w
  = top_level (try_except (invoke H openpose_binary) invoke_handler)
      (λ w', (Completed, w')) (World fs1 (w_trace w)).
Proof.
  intros Hin Hmk Hfind. unfold invoker.
  rewrite (invoker_start _ _ _ Hin Hmk). simpl w_fs.
  by rewrite (find_candidate_stable _ _ _ Hmk), Hfind.
Qed.

(** The guarded [try] block always completes, having started the command
    once. *)
Lemma invoke_guarded openpose_binary w :
  ∃ w', try_except (invoke H openpose_binary) invoke_handler w = (Ret (), w')
        ∧ spawned (w_trace w')
          = spawned (w_trace w) ++ [command_for openpose_binary].
Proof.
  unfold try_except, invoke, subprocess_run_checked.
  unfold print, emit, mbind, M_bind, get_fs, put_fs, raise. simpl.
  destruct (run_command H _ _) as [rc out err fs'|e]; simpl.
  - case_bool_decide; simpl; eexists; (split; [done|]); simpl;
      rewrite !spawned_app; simpl; by rewrite !app_nil_r.
  - destruct e; simpl; eexists; (split; [done|]); simpl;
      rewrite !spawned_app; simpl; by rewrite !app_nil_r.
Qed.

Lemma invoker_body_status w :
  (exit_status (invoker H cwd w).1 = 0%Z
   ↔ exists_ (w_fs w) input_dir = true
     ∧ (∃ fs1, mkdir_from [] output_dir (w_fs w) = Ret fs1)
     ∧ ∃ c, c ∈ possible_paths ∧ exists_ (w_fs w) (resolve cwd c) = true)
  ∧ (exit_status (invoker H cwd w).1 = 0%Z
     ∨ exit_status (invoker H cwd w).1 = 1%Z).
Proof.
  destruct (exists_ (w_fs w) input_dir) eqn:Hin.
  2:{ unfold invoker, top_level, mbind, M_bind, get_fs, raise. simpl.
      rewrite Hin. simpl. split; [|by right]. naive_solver. }
  destruct (mkdir_from [] output_dir (w_fs w)) as [fs1|e] eqn:Hmk.
  2:{ unfold invoker, top_level, mkdir, mbind, M_bind, get_fs, lift, raise,
        mret, M_ret.
      cbv beta iota. rewrite Hin. cbv beta iota. rewrite Hmk. simpl.
      split; [|by right]. naive_solver. }
  destruct (List.find (λ p, exists_ (w_fs w) (resolve cwd p)) possible_paths)
    as [bin|] eqn:Hfind.
  - rewrite (invoker_located _ _ _ Hin Hmk Hfind). unfold top_level.
    destruct (invoke_guarded bin (World fs1 (w_trace w))) as (w' & -> & _).
    simpl. split; [|by left]. split; [|done]. intros _.
    split_and!; [done|by eexists|].
    apply List.find_some in Hfind as [Hc Hex]. exists bin.
    by rewrite list_elem_of_In.
  - unfold invoker. rewrite (invoker_start _ _ _ Hin Hmk). simpl w_fs.
    rewrite (find_candidate_stable _ _ _ Hmk), Hfind.
    unfold guidance, print_all, print, emit, mbind, M_bind. simpl.
    split; [|by right]. split; [done|].
    intros (_ & _ & c & Hc & Hex).
    pose proof (proj1 (find_none_iff cwd (w_fs w)) Hfind) as Hnone.
    by rewrite (Hnone c Hc) in Hex.
Qed.

(** X8.  The exit status of the invoker script is 0 exactly when [cv2]
    can be imported, the input directory exists, the output directory can
    be ensured and at least one candidate executable exists; it is 1 in
    every other case.  In particular a failing or unstartable subprocess
    does not change the exit status. *)
Theorem invoker_exit_status w :
  (exit_status (invoker_script H cwd w).1 = 0%Z
   ↔ can_import H "cv2" = true
     ∧ exists_ (w_fs w) input_dir = true
     ∧ (∃ fs1, mkdir_from [] output_dir (w_fs w) = Ret fs1)
     ∧ ∃ c, c ∈ possible_paths ∧ exists_ (w_fs w) (resolve cwd c) = true)
  ∧ (exit_status (invoker_script H cwd w).1 = 0%Z
     ∨ exit_status (invoker_script H cwd w).1 = 1%Z).
Proof.
  unfold invoker_script, top_level, import, emit, mbind, M_bind. simpl.
  destruct (can_import H "cv2") eqn:Hcv; simpl.
  - destruct (invoker_body_status (World (w_fs w) (w_trace w ++ [EImport "cv2"])))
      as [Hiff Hor].
    simpl in Hiff. split; [|done]. rewrite Hiff. naive_solver.
  - split; [|by right]. naive_solver.
Qed.

(** X9.  When the preconditions hold, the invoker runs exactly one
    subprocess: the first candidate that exists, in the order of the list,
    with the fixed flags [--image_dir <input> --write_images <output>
    --display 0 --render_pose 1]; and the script then ends with status 0
    whatever the subprocess does. *)
Theorem invoker_runs_first_candidate w fs1 earlier openpose_binary later :
  exists_ (w_fs w) input_dir = true →
  mkdir_from [] output_dir (w_fs w) = Ret fs1 →
  possible_paths = earlier ++ openpose_binary :: later →
  (∀ c, c ∈ earlier → exists_ (w_fs w) (resolve cwd c) = false) →
  exists_ (w_fs w) (resolve cwd openpose_binary) = true →
  (invoker H cwd w).1 = Completed
  ∧ spawned (w_trace (invoker H cwd w).2)
    = spawned (w_trace w)
      ++ [[str_pypath openpose_binary;
           "--image_dir"; str_path input_dir;
           "--write_images"; str_path (input_dir ++ ["output"]);
           "--display"; "0"; "--render_pose"; "1"]].
Proof.
  intros Hin Hmk Hsplit Hearlier Hbin.
  assert (List.find (λ p, exists_ (w_fs w) (resolve cwd p)) possible_paths
          = Some openpose_binary) as Hfind.
  { rewrite Hsplit. by apply find_split. }
  rewrite (invoker_located _ _ _ Hin Hmk Hfind). unfold top_level.
  destruct (invoke_guarded openpose_binary (World fs1 (w_trace w)))
    as (w' & -> & Hs).
  simpl. split; [done|]. by rewrite Hs.
Qed.

(** X10.  When the subprocess exits with status 0, the invoker prints the
    path used, the command line, and the two completion lines; the captured
    output of the subprocess is not printed; the filesystem is the one the
    subprocess left. *)
Theorem invoker_success w fs1 openpose_binary out err fs2 :
  exists_ (w_fs w) input_dir = true →
  mkdir_from [] output_dir (w_fs w) = Ret fs1 →
  List.find (λ p, exists_ (w_fs w) (resolve cwd p)) possible_paths
  = Some openpose_binary →
  run_command H (command_for openpose_binary) fs1 = Exited 0 out err fs2 →
  invoker H cwd w
  = (Completed,
     World fs2
       (w_trace w ++ [
          EPrint ("使用的 OpenPose 路徑: " +:+ str_pypath openpose_binary);
          EPrint ("執行命令: " +:+ join " " (command_for openpose_binary));
          ESpawn (command_for openpose_binary);
          EPrint (LF +:+ "處理完成！");
          EPrint ("輸出已保存到: " +:+ str_path output_dir)
        ])).
Proof.
  intros Hin Hmk Hfind Hrun.
  rewrite (invoker_located _ _ _ Hin Hmk Hfind).
  unfold top_level, try_except, invoke, subprocess_run_checked.
  unfold print, emit, mbind, M_bind, get_fs, put_fs, raise. simpl.
  rewrite Hrun. simpl. by rewrite <- !app_assoc.
Qed.

(** X11.  When the subprocess cannot be run at all (any exception other
    than [CalledProcessError]), the second [except] clause prints one
    generic line with the message of the exception, the filesystem is as
    [mkdir] left it, and the script ends with status 0. *)
Theorem invoker_cannot_start w fs1 openpose_binary e :
  exists_ (w_fs w) input_dir = true →
  mkdir_from [] output_dir (w_fs w) = Ret fs1 →
  List.find (λ p, exists_ (w_fs w) (resolve cwd p)) possible_paths
  = Some openpose_binary →
  run_command H (command_for openpose_binary) fs1 = NotStarted e →
  (∀ msg stderr, e ≠ CalledProcessError msg stderr) →
  invoker H cwd w
  = (Completed,
     World fs1
       (w_trace w ++ [
          EPrint ("使用的 OpenPose 路徑: " +:+ str_pypath openpose_binary);
          EPrint ("執行命令: " +:+ join " " (command_for openpose_binary));
          ESpawn (command_for openpose_binary);
          EPrint (LF +:+ "發生未預期的錯誤: " +:+ str_exn e)
        ])).
Proof.
  intros Hin Hmk Hfind Hrun He.
  rewrite (invoker_located _ _ _ Hin Hmk Hfind).
  unfold top_level, try_except, invoke, subprocess_run_checked.
  unfold print, emit, mbind, M_bind, get_fs, put_fs, raise. simpl.
  rewrite Hrun. simpl.
  destruct e; simpl; try (by rewrite <- !app_assoc).
  by edestruct He.
Qed.
End InvokerFurther.

Lemma invoker_runs_first_candidate_witness :
  (invoker failing_host [] (World fs_openpose [])).1 = Completed.
Proof.
  refine (proj1
    (invoker_runs_first_candidate failing_host [] (World fs_openpose [])
       (<[output_dir := Dir]> fs_openpose)
       [Rel ["build"; "examples"; "openpose"; "openpose.bin"]]
       (Abs ["usr"; "local"; "bin"; "openpose.bin"])
       [Rel ["C:"; "Program Files"; "OpenPose"; "bin"; "OpenPoseDemo.exe"]]
       _ _ _ _ _)).
  - vm_compute. reflexivity.
  - reflexivity.
  - reflexivity.
  - intros c Hc. apply list_elem_of_singleton in Hc as ->.
    vm_compute. reflexivity.
  - vm_compute. reflexivity.
Defined.

Lemma invoker_success_witness :
  (invoker bare_host [] (World fs_openpose [])).1 = Completed.
Proof.
  refine (f_equal fst
    (invoker_success bare_host [] (World fs_openpose [])
       (<[output_dir := Dir]> fs_openpose)
       (Abs ["usr"; "local"; "bin"; "openpose.bin"]) "" ""
       (<[output_dir := Dir]> fs_openpose) _ _ _ _)).
  - vm_compute. reflexivity.
  - reflexivity.
  - vm_compute. reflexivity.
  - reflexivity.
Defined.

Lemma invoker_cannot_start_witness :
  (invoker noexec_host [] (World fs_openpose [])).1 = Completed.
Proof.
  refine (f_equal fst
    (invoker_cannot_start noexec_host [] (World fs_openpose [])
       (<[output_dir := Dir]> fs_openpose)
       (Abs ["usr"; "local"; "bin"; "openpose.bin"])
       (OtherError "[Errno 13] Permission denied") _ _ _ _ _)).
  - vm_compute. reflexivity.
  - reflexivity.
  - vm_compute. reflexivity.
  - reflexivity.
  - discriminate.
Defined.

(** ** [main] and the processor script *)

Lemma loop_trace_grows X input_path output_path names w :
  ∃ evs,
    w_trace (after (for_each names (process_file_guarded X input_path output_path)) w)
    = w_trace w ++ evs.
Proof.
  revert w. induction names as [|n names IH]; intros w.
  - exists []. by rewrite app_nil_r.
  - rewrite after_for_each_cons.
    destruct (guarded_trace X input_path output_path n w) as (evs1 & Ht1 & _).
    destruct (IH (after (process_file_guarded X input_path output_path n) w))
      as (evs2 & Ht2).
    exists (evs1 ++ evs2). by rewrite Ht2, Ht1, app_assoc.
Qed.

Lemma process_directory_trace_grows X input_path output_path w :
  ∃ evs,
    w_trace (after (process_directory X input_path output_path) w)
    = w_trace w ++ evs.
Proof.
  unfold after.
  destruct (mkdir_from [] output_path (w_fs w)) as [fs1|e] eqn:Hmk.
  - destruct (decide (image_files fs1 input_path = [])) as [Hnil|Hne].
    + rewrite (process_directory_empty _ _ _ _ _ Hmk Hnil). by eexists.
    + rewrite (process_directory_loop _ _ _ _ _ Hmk Hne).
      destruct (loop_trace_grows X input_path output_path
                  (image_files fs1 input_path)
                  (World fs1 (w_trace w ++
                     [EPrint (start_line (length (image_files fs1 input_path)))])))
        as (evs & Ht).
      unfold after in Ht. rewrite Ht. simpl. rewrite <- app_assoc. by eexists.
  - rewrite (process_directory_mkdir_fails _ _ _ _ _ Hmk).
    exists []. by rewrite app_nil_r.
Qed.

Section ScriptFurther.
Variable H : Host.
Variable X : External.

Lemma main_total model_loads w :
  main H X model_loads w = (Ret (), after (main H X model_loads) w).
Proof.
  unfold after, main, try_except.
  match goal with
  | |- context [match ?b w with _ => _ end] => destruct (b w) as [[[]|e] w']
  end; done.
Qed.

(** X12.  The processor script ends with status 0 exactly when its four
    top-level imports (cv2, mediapipe, numpy, tqdm) succeed: every
    exception raised later, in [main], is caught and printed.  When an
    import fails the status is 1 and nothing has been printed or written. *)
Theorem processor_script_status model_loads w :
  (exit_status (processor_script H X model_loads w).1 = 0%Z
   ↔ can_import H "cv2" = true ∧ can_import H "mediapipe" = true
     ∧ can_import H "numpy" = true ∧ can_import H "tqdm" = true)
  ∧ (exit_status (processor_script H X model_loads w).1 ≠ 0%Z →
     exit_status (processor_script H X model_loads w).1 = 1%Z
     ∧ w_fs (processor_script H X model_loads w).2 = w_fs w
     ∧ stdout (w_trace (processor_script H X model_loads w).2)
       = stdout (w_trace w)).
Proof.
  unfold processor_script, top_level, import, emit, mbind, M_bind. simpl.
  destruct (can_import H "cv2") eqn:H1; simpl.
  2:{ split; [naive_solver|]. intros _. split_and!; try done.
      unfold stdout. by rewrite omap_app, app_nil_r. }
  destruct (can_import H "mediapipe") eqn:H2; simpl.
  2:{ split; [naive_solver|]. intros _. split_and!; try done.
      unfold stdout. by rewrite !omap_app, !app_nil_r. }
  destruct (can_import H "numpy") eqn:H3; simpl.
  2:{ split; [naive_solver|]. intros _. split_and!; try done.
      unfold stdout. by rewrite !omap_app, !app_nil_r. }
  destruct (can_import H "tqdm") eqn:H4; simpl.
  2:{ split; [naive_solver|]. intros _. split_and!; try done.
      unfold stdout. by rewrite !omap_app, !app_nil_r. }
  rewrite main_total. simpl. split; [done|]. by intros [].
Qed.

(** X13.  When the estimator cannot be constructed (the model fails to
    load), nothing is processed: the error is printed, no file is read or
    written and the output directory is not even created. *)
Theorem model_load_failure e w :
  can_import H "mediapipe" = true →
  can_import H "tqdm" = true →
  main H X (Raise e) w
  = (Ret (),
     World (w_fs w)
       (w_trace w ++ [
          EImport "mediapipe"; EImport "tqdm";
          EPrint "初始化姿態估計器...";
          EConstruct;
          EPrint (LF +:+ "發生錯誤: " +:+ str_exn e)
        ])).
Proof.
  intros Hm Ht. unfold main, try_except, required_packages.
  change (for_each ["mediapipe"; "tqdm"] (ensure_package H))
    with (ensure_package H "mediapipe";; ensure_package H "tqdm";; mret ()).
  unfold mbind, M_bind.
  rewrite (ensure_package_imports _ _ _ Hm).
  rewrite (ensure_package_imports _ _ _ Ht).
  unfold mret, M_ret, construct, print, emit, lift.
  unfold mbind, M_bind. cbv beta iota. simpl w_fs. simpl w_trace.
  by rewrite <- !app_assoc.
Qed.

(** X14.  [main] prints the completion line whenever the output directory
    could be created, whatever happened to the individual images (none
    found, unreadable, or failed): its trace ends with that line. *)
Theorem completion_reported w fs1 :
  can_import H "mediapipe" = true →
  can_import H "tqdm" = true →
  mkdir_from [] main_output_dir (w_fs w) = Ret fs1 →
  ∃ evs,
    w_trace (after (main H X (Ret ())) w)
    = w_trace w
      ++ [EImport "mediapipe"; EImport "tqdm"; EPrint "初始化姿態估計器...";
          EConstruct]
      ++ evs
      ++ [EPrint (LF +:+ "處理完成！結果已保存到: " +:+ str_path main_output_dir)].
Proof.
  intros Hm Ht Hmk. unfold after, main, try_except, required_packages.
  change (for_each ["mediapipe"; "tqdm"] (ensure_package H))
    with (ensure_package H "mediapipe";; ensure_package H "tqdm";; mret ()).
  unfold mbind, M_bind.
  rewrite (ensure_package_imports _ _ _ Hm).
  rewrite (ensure_package_imports _ _ _ Ht).
  unfold mret, M_ret, construct, print, emit, lift.
  unfold mbind, M_bind. cbv beta iota. simpl w_fs. simpl w_trace.
  set (w1 := World _ _).
  assert (mkdir_from [] main_output_dir (w_fs w1) = Ret fs1) as Hmk1 by done.
  pose proof (process_directory_returns X main_input_dir main_output_dir
                w1 fs1 Hmk1) as Hb.
  unfold result in Hb.
  destruct (process_directory_trace_grows X main_input_dir main_output_dir w1)
    as [evs Hevs].
  destruct (process_directory X main_input_dir main_output_dir w1)
    as [r w2] eqn:Hpd.
  simpl in Hb. subst r. unfold after in Hevs. rewrite Hpd in Hevs.
  simpl in Hevs. simpl. exists evs. rewrite Hevs. unfold w1. simpl.
  by rewrite <- !app_assoc.
Qed.
End ScriptFurther.

Lemma processor_script_status_witness :
  exit_status (processor_script bare_host demo (Ret ()) (World fs_empty [])).1
  = 1%Z.
Proof.
  refine (proj1 (proj2
    (processor_script_status bare_host demo (Ret ()) (World fs_empty [])) _)).
  vm_compute. discriminate.
Defined.

Lemma model_load_failure_witness :
  w_fs (after (main failing_host demo (Raise (OtherError "model not found")))
          (World fs_input_only []))
  = fs_input_only.
Proof.
  refine (f_equal (λ r, w_fs r.2)
    (model_load_failure failing_host demo (OtherError "model not found")
       (World fs_input_only []) _ _)).
  - reflexivity.
  - reflexivity.
Defined.

Lemma completion_reported_witness :
  ∃ evs,
    w_trace (after (main failing_host demo (Ret ())) (World fs_input_only []))
    = [EImport "mediapipe"; EImport "tqdm"; EPrint "初始化姿態估計器...";
       EConstruct]
      ++ evs
      ++ [EPrint (LF +:+ "處理完成！結果已保存到: " +:+ str_path main_output_dir)].
Proof.
  refine (completion_reported failing_host demo (World fs_input_only [])
            (<[main_output_dir := Dir]> fs_input_only) _ _ _).
  - reflexivity.
  - reflexivity.
  - reflexivity.
Defined.

(** ** A second run over the same directories *)

Lemma mkdir_from_dirs made todo fs fs1 :
  mkdir_from made todo fs = Ret fs1 →
  ∀ k, 0 < k ≤ length todo → fs1 !! (made ++ take k todo) = Some Dir.
Proof.
  revert made fs. induction todo as [|c rest IH]; intros made fs Hmk k Hk;
    simpl in Hk; [lia|].
  simpl in Hmk.
  assert (∀ fs0, fs0 !! (made ++ [c]) = Some Dir →
                 mkdir_from (made ++ [c]) rest fs0 = Ret fs1 →
                 fs1 !! (made ++ take k (c :: rest)) = Some Dir) as Hstep.
  { intros fs0 Hc Hrec. destruct k as [|k]; [lia|]. simpl.
    destruct k as [|k].
    - rewrite take_0.
      destruct (mkdir_from_extends _ _ _ _ Hrec (made ++ [c])) as [->|[Hn _]];
        [done|]. by rewrite Hn in Hc.
    - rewrite (cons_middle c), app_assoc. apply (IH _ _ Hrec). lia. }
  destruct (fs !! (made ++ [c])) as [[|data]|] eqn:Hc.
  - by apply (Hstep fs).
  - by destruct rest.
  - apply (Hstep (<[made ++ [c] := Dir]> fs)); [|done].
    by rewrite lookup_insert_eq.
Qed.

Lemma mkdir_from_noop made todo fs :
  (∀ k, 0 < k ≤ length todo → fs !! (made ++ take k todo) = Some Dir) →
  mkdir_from made todo fs = Ret fs.
Proof.
  revert made. induction todo as [|c rest IH]; intros made Hd; [done|].
  pose proof (Hd 1 ltac:(simpl; lia)) as H1. simpl in H1. rewrite take_0 in H1.
  simpl. rewrite H1. apply IH.
  intros k Hk. rewrite <- app_assoc. apply (Hd (S k)). simpl. lia.
Qed.

Lemma image_files_ext fs fs' d :
  (∀ n, n ∈ iterdir fs' d ↔ n ∈ iterdir fs d) →
  image_files fs' d = image_files fs d.
Proof.
  intros Hsame. apply (StronglySorted_unique String.le).
  - apply (StronglySorted_merge_sort String.le).
  - apply (StronglySorted_merge_sort String.le).
  - apply NoDup_Permutation; [apply NoDup_image_files..|].
    intros n. rewrite !elem_of_image_files. by rewrite Hsame.
Qed.

(** X15.  Outputs never become inputs: with the output directory distinct
    from the input directory (it may lie inside it, as in [main]), a second
    run finds the output directory in place, creates nothing, and discovers
    exactly the list of images the first run processed. *)
Theorem second_run_same_batch X input_path output_path w fs1 :
  input_path ≠ output_path →
  mkdir_from [] output_path (w_fs w) = Ret fs1 →
  let w' := after (process_directory X input_path output_path) w in
  mkdir_from [] output_path (w_fs w') = Ret (w_fs w')
  ∧ image_files (w_fs w') input_path = image_files fs1 input_path.
Proof.
  intros Hne Hmk w'.
  destruct (after_process_directory X input_path output_path w fs1 Hmk)
    as [tr Hw'].
  unfold w'. rewrite Hw'.
  pose proof (loop_changes X input_path output_path
                (image_files fs1 input_path) (World fs1 tr)) as Hch.
  set (fs' := w_fs (after _ (World fs1 tr))) in *. simpl in Hch.
  split.
  - apply mkdir_from_noop. intros k Hk.
    pose proof (mkdir_from_dirs _ _ _ _ Hmk k Hk) as Hd. simpl in *.
    destruct Hch as [Hdir _]. specialize (Hdir (take k output_path)).
    destruct (take k output_path) as [|c p] eqn:Htake.
    { apply (f_equal length) in Htake. rewrite length_take in Htake.
      simpl in Htake. lia. }
    simpl in Hdir. by apply Hdir.
  - apply image_files_ext. intros n. rewrite !elem_of_iterdir.
    rewrite (is_dir_stable _ _ _ _ Hch).
    destruct Hch as [_ Hf].
    specialize (Hf (input_path ++ [n])
                  (input_not_output input_path output_path _ n Hne)).
    rewrite !lookup_node_child in Hf. by rewrite Hf.
Qed.

Lemma second_run_same_batch_witness :
  image_files
    (w_fs (after (process_directory demo data_dir out_dir)
             (World fs_same_stem [])))
    data_dir
  = image_files fs_same_stem data_dir.
Proof.
  refine (proj2 (second_run_same_batch demo data_dir out_dir
                   (World fs_same_stem []) fs_same_stem _ _)).
  - discriminate.
  - reflexivity.
Defined.

(** ** The precision of the written values *)

Lemma div_half_even_nearest num den :
  den ≠ 0%N →
  (2 * Z.abs (Z.of_N (div_half_even num den) * Z.of_N den - Z.of_N num)
   ≤ Z.of_N den)%Z
  ∧ ((2 * Z.abs (Z.of_N (div_half_even num den) * Z.of_N den - Z.of_N num)
      = Z.of_N den)%Z →
     N.even (div_half_even num den) = true).
Proof.
  intros Hden. unfold div_half_even.
  pose proof (N.div_mod num den Hden) as Hdm.
  pose proof (N.mod_lt num den Hden) as Hlt.
  set (a := (num `div` den)%N) in *. set (r := (num `mod` den)%N) in *.
  assert (Z.of_N num = Z.of_N den * Z.of_N a + Z.of_N r)%Z as Hz by nia.
  destruct (N.compare_spec (2 * r) den) as [Heq|Hcmp|Hcmp].
  - destruct (N.even a) eqn:Ha.
    + split; [nia|done].
    + split; [nia|]. intros _.
      rewrite N.even_add, Ha. done.
  - split; [nia|]. intros Htie. nia.
  - split; [nia|]. intros Htie. nia.
Qed.

(** X16.  A finite value is written with an error of at most half a unit
    of the fourth decimal, and a value exactly halfway between two
    four-decimal numbers goes to the one whose last digit is even: reading
    the written number back gives the sign of the float (also for a
    negative value that rounds to zero) and the nearest multiple of
    [10^-4] of [m * 2^e]. *)
Theorem written_value_precision neg m e rest :
  ∃ units,
    parse_fixed4 (format_4f (Ffinite neg m e) +:+ rest)
    = Some (Fixed4 neg units, rest)
    ∧ (2 * Z.abs (Z.of_N units * 2 ^ Z.max 0 (- e)
                  - Z.of_N m * 2 ^ Z.max 0 e * 10000)
       ≤ 2 ^ Z.max 0 (- e))%Z
    ∧ ((2 * Z.abs (Z.of_N units * 2 ^ Z.max 0 (- e)
                   - Z.of_N m * 2 ^ Z.max 0 e * 10000)
        = 2 ^ Z.max 0 (- e))%Z →
       N.even units = true).
Proof.
  exists (f4_units (quantize neg m e)). split.
  { unfold format_4f. by rewrite parse_fixed4_str. }
  unfold quantize. simpl f4_units. destruct e as [|k|k].
  - change (Z.of_N (m * 2 ^ Z.to_N 0 * 10000))
      with (Z.of_N (m * 1 * 10000)).
    change (2 ^ Z.max 0 (- 0))%Z with 1%Z. change (2 ^ Z.max 0 0)%Z with 1%Z.
    split; [lia|lia].
  - rewrite Z.max_l, Z.max_r by lia.
    rewrite !N2Z.inj_mul, N2Z.inj_pow, Z2N.id by lia.
    change (Z.of_N 2) with 2%Z. change (Z.of_N 10000) with 10000%Z.
    rewrite Z.pow_0_r. split; [lia|lia].
  - rewrite Z.max_r, Z.max_l by lia.
    change (- Z.neg k)%Z with (Z.pos k). change (2 ^ 0)%Z with 1%Z.
    assert ((2 ^ N.pos k)%N ≠ 0%N) as Hden by (apply N.pow_nonzero; lia).
    destruct (div_half_even_nearest (m * 10000) (2 ^ N.pos k) Hden)
      as [Hnear Htie].
    rewrite N2Z.inj_mul, N2Z.inj_pow in Hnear, Htie.
    change (Z.of_N 2) with 2%Z in *. change (Z.of_N 10000) with 10000%Z in *.
    change (Z.of_N (N.pos k)) with (Z.pos k) in *.
    rewrite Z.mul_1_r. split; [exact Hnear|exact Htie].
Qed.

(** ** The name of the landmark file *)

Lemma rfind_dot_app b s i last :
  rfind_dot (b +:+ s) i last
  = rfind_dot s (i + String.length b) (rfind_dot b i last).
Proof.
  revert i last. induction b as [|c b IH]; intros i last.
  - rewrite string_app_nil_l. simpl. by rewrite Nat.add_0_r.
  - rewrite string_app_cons. simpl. rewrite IH. f_equal. lia.
Qed.

Lemma substring_app_prefix b t :
  String.substring 0 (String.length b) (b +:+ t) = b.
Proof.
  induction b as [|c b IH].
  - rewrite string_app_nil_l. by destruct t.
  - rewrite string_app_cons. simpl. by rewrite IH.
Qed.

(** X17.  The landmark file of an image keeps everything before the last
    extension: for a name [b.ext] with one of the four extensions it is
    [landmarks_b.txt], dots inside [b] included; the one exception is a
    name that is nothing but the extension ([.jpg]), which keeps it. *)
Theorem landmarks_name_of_image b ext :
  ext ∈ ["jpg"; "jpeg"; "png"; "bmp"] →
  landmarks_name (b +:+ "." +:+ ext)
  = "landmarks_" +:+ (if decide (b = "") then "." +:+ ext else b) +:+ ".txt".
Proof.
  intros Hext. unfold landmarks_name, stem. do 2 f_equal.
  rewrite rfind_dot_app. simpl Nat.add.
  assert (rfind_dot ("." +:+ ext) (String.length b) (rfind_dot b 0 None)
          = Some (String.length b)) as ->.
  { repeat (apply elem_of_cons in Hext as [-> | Hext]; [done|]).
    by apply elem_of_nil in Hext. }
  assert (String.length (b +:+ "." +:+ ext) - 1
          = String.length b + String.length ext) as ->.
  { rewrite !string_app_length. simpl. lia. }
  assert (0 < String.length ext) as Hlen.
  { repeat (apply elem_of_cons in Hext as [-> | Hext]; [simpl; lia|]).
    by apply elem_of_nil in Hext. }
  destruct (decide (b = "")) as [->|Hb].
  - by rewrite bool_decide_eq_false_2 by (simpl; lia).
  - rewrite bool_decide_eq_true_2; [apply substring_app_prefix|].
    destruct b; [done|]. simpl. lia.
Qed.

Lemma landmarks_name_of_image_witness :
  landmarks_name "frame.final.jpg" = "landmarks_frame.final.txt".
Proof.
  refine (landmarks_name_of_image "frame.final" "jpg" _).
  constructor.
Defined.

(** ** A rendered image that cannot be written *)

(** X18.  The value [cv2.imwrite] returns is never looked at: when the
    rendered image cannot be written (a directory has its name), no
    exception is raised and no line is printed.  Without a detected pose the
    iteration leaves no trace at all; with one, the landmark file is still
    written, without its image. *)
Theorem unwritable_image_unreported X input_path output_path n w
    data img result_image ld encoded :
  w_fs w !! (input_path ++ [n]) = Some (File data) →
  imread_data X data = Ret (Some img) →
  process_image X img = Ret (result_image, ld) →
  imencode X ("pose_" +:+ n) result_image = Ret encoded →
  w_fs w !! (output_path ++ ["pose_" +:+ n]) = Some Dir →
  w_fs w !! (output_path ++ [landmarks_name n]) ≠ Some Dir →
  process_file_guarded X input_path output_path n w
  = (Ret (),
     match ld with
     | None => w
     | Some d =>
         World (<[output_path ++ [landmarks_name n] := File (landmarks_text d)]>
                  (w_fs w))
           (w_trace w ++ [EWriteText (output_path ++ [landmarks_name n])])
     end).
Proof.
  intros Hin Hread Hproc Henc Hpp Hlp.
  apply guarded_Ret. rewrite process_file_plan.
  rewrite (plan_of_image X input_path n (w_fs w) data img result_image ld
             encoded Hin Hread Hproc Henc).
  assert (write_image output_path n encoded w = w) as Hw.
  { unfold write_image, pose_path, pose_name.
    by rewrite lookup_node_child, Hpp. }
  destruct ld as [d|]; simpl; rewrite Hw; [|done].
  unfold save_landmarks, mbind, M_bind, get_fs, put_fs, emit, raise.
  unfold landmarks_path. rewrite lookup_node_child.
  by destruct (w_fs w !! (output_path ++ [landmarks_name n])) as [[|?]|].
Qed.

Lemma unwritable_image_unreported_witness :
  stdout (w_trace (after (process_file_guarded demo data_dir out_dir "a.jpg")
                     (World fs_image_blocked []))) = []
  ∧ written_texts (w_trace (after (process_file_guarded demo data_dir out_dir "a.jpg")
                              (World fs_image_blocked [])))
    = [out_dir ++ ["landmarks_a.txt"]].
Proof.
  unfold after. rewrite
    ((unwritable_image_unreported demo data_dir out_dir "a.jpg"
       (World fs_image_blocked [])
       "person" (demo_image "person")
       (draw_landmarks demo (demo_image "person")
          [PbLandmark (Ffinite false 112 (-8)) half half half])
       (Some (LandmarksDict
                [Landmark 0 (Ffinite false 112 (-8)) half half half] 6 1))
       (demo_data
          (draw_landmarks demo (demo_image "person")
             [PbLandmark (Ffinite false 112 (-8)) half half half]))
       ltac:(reflexivity) ltac:(reflexivity) ltac:(reflexivity)
       ltac:(reflexivity) ltac:(reflexivity) ltac:(discriminate))).
  split; reflexivity.
Defined.

(** ** A regular file in place of the input directory *)

Lemma mkdir_from_through_file made todo fs k data :
  0 < k < length todo →
  fs !! (made ++ take k todo) = Some (File data) →
  ∃ msg, mkdir_from made todo fs = Raise (NotADirectoryError msg).
Proof.
  revert made fs k. induction todo as [|c rest IH]; intros made fs k Hk Hfile;
    simpl in Hk; [lia|].
  destruct k as [|k]; [lia|]. simpl in Hfile. simpl.
  destruct k as [|k].
  - rewrite take_0 in Hfile. rewrite Hfile.
    destruct rest; [simpl in Hk; lia|by eexists].
  - rewrite (cons_middle c), app_assoc in Hfile.
    destruct (fs !! (made ++ [c])) as [[|data']|] eqn:Hc.
    + apply (IH _ _ (S k)); [lia|done].
    + destruct rest; [simpl in Hk; lia|by eexists].
    + apply (IH _ _ (S k)); [lia|].
      rewrite lookup_insert_ne; [done|].
      intros Heq. apply (f_equal length) in Heq.
      rewrite !length_app, length_take in Heq. cbn [length] in Heq, Hk. lia.
Qed.

(** X19.  The invoker tests its input path with [exists()], not with
    [is_dir()]: a regular file at that path passes the test, and the
    script then ends in [mkdir] of the output directory with an uncaught
    [NotADirectoryError], before anything is printed, created or run. *)
Theorem invoker_input_is_file H cwd w data :
  w_fs w !! input_dir = Some (File data) →
  ∃ msg, invoker H cwd w = (Traceback (NotADirectoryError msg), w).
Proof.
  intros Hfile.
  assert (exists_ (w_fs w) input_dir = true) as Hin.
  { unfold exists_. apply bool_decide_eq_true_2.
    change (lookup_node (w_fs w) input_dir) with (w_fs w !! input_dir).
    by rewrite Hfile. }
  destruct (mkdir_from_through_file [] output_dir (w_fs w)
              (length input_dir) data) as [msg Hmk].
  { unfold output_dir. rewrite length_app. simpl. lia. }
  { unfold output_dir. by rewrite take_app_length. }
  exists msg.
  unfold invoker, top_level, mkdir, mbind, M_bind, get_fs, lift, raise,
    mret, M_ret.
  cbv beta iota. rewrite Hin. cbv beta iota. by rewrite Hmk.
Qed.

Lemma invoker_input_is_file_witness :
  exit_status (invoker failing_host [] (World fs_input_is_file [])).1 = 1%Z.
Proof.
  destruct (invoker_input_is_file failing_host [] (World fs_input_is_file [])
              "not a directory" ltac:(reflexivity)) as [msg ->].
  reflexivity.
Defined.
